(** * Wassermelder: the statistics engine of [server.js]

    A shallow embedding of [calculateStats] (src/server.js, lines 107-229)
    and of the JavaScript operations it relies on, followed by the
    properties of the aggregation that the specification states.

    Modelling conventions.
    - A [Date] is its time value: integer milliseconds since the epoch
      ([Z]).  A reading's [date] property is kept as stored, together
      with the time value that [new Date(r.date)] reads from it
      ([DateValue]); a stored date that [new Date] cannot read is not
      modelled.
    - JavaScript numbers that carry meter values and rates are exact
      rationals ([Q]); rounding to the binary64 grid is not modelled.
      Concrete numeric results are therefore compared with [==].
    - Local time is UTC shifted by a constant offset [tz] (milliseconds),
      the [LocalTZA] of ECMA-262; daylight saving is not modelled.
    - Reading a property of [undefined] throws; fallible array reads
      return [option], [None] standing for the thrown [TypeError]. *)

From Stdlib Require Import String ZArith QArith Qround List Bool Lia.
From Stdlib Require Import Ascii DecimalString DecimalZ.
From Stdlib Require Import Permutation Sorted.
Import ListNotations.

Open Scope Z_scope.

(** ** The error monad of array reads *)

Definition ret {A} (a : A) : option A := Some a.

Definition bind {A B} (m : option A) (k : A -> option B) : option B :=
  match m with
  | Some a => k a
  | None => None
  end.

Notation "x <- m ;; k" := (bind m (fun x => k))
  (at level 61, m at next level, right associativity).

Fixpoint mapM {A B} (f : A -> option B) (l : list A) : option (list B) :=
  match l with
  | [] => ret []
  | x :: xs => y <- f x ;; ys <- mapM f xs ;; ret (y :: ys)
  end.

(** ** Arrays *)

(** [a.length] *)
Definition len {A} (a : list A) : Z := Z.of_nat (length a).

(** [a[i]]: [undefined] outside [0 .. a.length - 1]. *)
Definition at_ {A} (a : list A) (i : Z) : option A :=
  if i <? 0 then None else nth_error a (Z.to_nat i).

(** ** Numbers *)

(** [a > b] on numbers *)
Definition Qgtb (a b : Q) : bool := negb (Qle_bool a b).

(** [Math.round]: nearest integer, halves towards plus infinity. *)
Definition Math_round (x : Q) : Q := inject_Z (Qfloor (x + (1 # 2))).

(** [Math.round(x * 10) / 10] *)
Definition round1 (x : Q) : Q := (Math_round (x * 10) / 10)%Q.

(** [n.toString()] of an integer *)
Definition toString (n : Z) : string := NilZero.string_of_int (Z.to_int n).

(** ** Dates (ECMA-262, section "Date objects") *)

Definition msPerDay : Z := 1000 * 60 * 60 * 24.

Definition Day (t : Z) : Z := t / msPerDay.

Definition DayFromYear (y : Z) : Z :=
  365 * (y - 1970) + (y - 1969) / 4 - (y - 1901) / 100 + (y - 1601) / 400.

Definition TimeFromYear (y : Z) : Z := msPerDay * DayFromYear y.

Definition DaysInYear (y : Z) : Z := DayFromYear (y + 1) - DayFromYear y.

(** The largest year whose first day is not after [t]: an estimate from
    the mean year length, corrected by at most one. *)
Definition YearFromTime (t : Z) : Z :=
  let d := Day t in
  let y := 1970 + (400 * d) / 146097 in
  if DayFromYear (y + 1) <=? d then y + 1
  else if DayFromYear y <=? d then y
  else y - 1.

Definition InLeapYear (t : Z) : Z := DaysInYear (YearFromTime t) - 365.

Definition DayWithinYear (t : Z) : Z := Day t - DayFromYear (YearFromTime t).

(** Number of days of the year before month [m] (0 = January). *)
Definition daysBeforeMonth (leap m : Z) : Z :=
  match m with
  | 0 => 0
  | 1 => 31
  | 2 => 59 + leap
  | 3 => 90 + leap
  | 4 => 120 + leap
  | 5 => 151 + leap
  | 6 => 181 + leap
  | 7 => 212 + leap
  | 8 => 243 + leap
  | 9 => 273 + leap
  | 10 => 304 + leap
  | 11 => 334 + leap
  | _ => 365 + leap
  end.

Definition MonthFromTime (t : Z) : Z :=
  let d := DayWithinYear t in
  let leap := InLeapYear t in
  if d <? daysBeforeMonth leap 1 then 0
  else if d <? daysBeforeMonth leap 2 then 1
  else if d <? daysBeforeMonth leap 3 then 2
  else if d <? daysBeforeMonth leap 4 then 3
  else if d <? daysBeforeMonth leap 5 then 4
  else if d <? daysBeforeMonth leap 6 then 5
  else if d <? daysBeforeMonth leap 7 then 6
  else if d <? daysBeforeMonth leap 8 then 7
  else if d <? daysBeforeMonth leap 9 then 8
  else if d <? daysBeforeMonth leap 10 then 9
  else if d <? daysBeforeMonth leap 11 then 10
  else 11.

(** [MakeDay(year, month, date)]: the month may lie outside [0 .. 11]
    and the date outside the month; both carry over. *)
Definition MakeDay (year month date : Z) : Z :=
  let ym := year + month / 12 in
  let mn := month mod 12 in
  DayFromYear ym + daysBeforeMonth (DaysInYear ym - 365) mn + date - 1.

Definition MakeDate (day time : Z) : Z := day * msPerDay + time.

Definition LocalTime (tz t : Z) : Z := t + tz.
Definition UTC (tz t : Z) : Z := t - tz.

(** [new Date(year, month, date)]: local midnight of that day.  Years
    0 to 99 mean 1900 to 1999. *)
Definition Date_of (tz year month date : Z) : Z :=
  let yr := if (0 <=? year) && (year <=? 99) then 1900 + year else year in
  UTC tz (MakeDate (MakeDay yr month date) 0).

Definition getFullYear (tz t : Z) : Z := YearFromTime (LocalTime tz t).
Definition getMonth (tz t : Z) : Z := MonthFromTime (LocalTime tz t).

(** Two decimal digits, as in [toISOString] and [toTimeString]. *)
Definition pad2 (n : Z) : string :=
  if n <? 10 then String "0"%char (toString n) else toString n.

(** Four decimal digits: the year of [toISOString] from 0 to 9999. *)
Definition pad4 (n : Z) : string :=
  if n <? 10 then ("000" ++ toString n)%string
  else if n <? 100 then ("00" ++ toString n)%string
  else if n <? 1000 then String "0"%char (toString n)
  else toString n.

Definition DateFromTime (t : Z) : Z :=
  DayWithinYear t - daysBeforeMonth (InLeapYear t) (MonthFromTime t) + 1.

Definition HourFromTime (t : Z) : Z := (t / (1000 * 60 * 60)) mod 24.
Definition MinFromTime (t : Z) : Z := (t / (1000 * 60)) mod 60.
Definition SecFromTime (t : Z) : Z := (t / 1000) mod 60.

Definition msFromTime (t : Z) : Z := t mod 1000.

(** Three decimal digits: the milliseconds of [toISOString]. *)
Definition pad3 (n : Z) : string :=
  if n <? 10 then ("00" ++ toString n)%string
  else if n <? 100 then String "0"%char (toString n)
  else toString n.

(** [toISOString]: [YYYY-MM-DDTHH:mm:ss.sssZ], in UTC. *)
Definition toISOString (t : Z) : string :=
  (pad4 (YearFromTime t) ++ "-" ++ pad2 (MonthFromTime t + 1) ++ "-"
   ++ pad2 (DateFromTime t) ++ "T" ++ pad2 (HourFromTime t) ++ ":"
   ++ pad2 (MinFromTime t) ++ ":" ++ pad2 (SecFromTime t) ++ "."
   ++ pad3 (msFromTime t) ++ "Z")%string.

(** ** JSON values *)

(** A JSON value, as far as the code inspects it; an object or an array
    is kept as its JSON text. *)
Inductive JValue :=
| JUndefined
| JNull
| JBool (b : bool)
| JNumber (n : Q)
| JString (s : string)
| JObject (text : string).

(** [!v] *)
Definition falsy (v : JValue) : bool :=
  match v with
  | JUndefined | JNull => true
  | JBool b => negb b
  | JNumber n => Qeq_bool n 0
  | JString s => String.eqb s EmptyString
  | JObject _ => false
  end.

(** ** Readings and statistics *)

(** A [date] property: the JSON value that is stored, and the time value
    that [new Date] reads from it.  The statistics work on the time
    value; the stored value is what [startDate] and [endDate] hand back.
    Where a number is expected, [date r] reads [new Date(r.date)]. *)
Record DateValue := {
  stored : JValue;
  time : Z
}.

Coercion time : DateValue >-> Z.

(** The date that [new Date(t).toISOString()] stores: [new Date] reads
    the time value [t] back from that text. *)
Definition isoStamp (t : Z) : DateValue :=
  {| stored := JString (toISOString t); time := t |}.

Record Reading := {
  id : string;
  date : DateValue;
  value : Q;
  confidence : option string;
  notes : option string;
  image : option string
}.

Record LastInterval := {
  li_days : Q;
  li_liters : Q;
  li_litersPerDay : Q;
  li_startDate : DateValue;
  li_endDate : DateValue
}.

Record YearStats := {
  ys_totalLiters : Q;
  ys_avgLitersPerDay : Q;
  ys_days : Q
}.

(** [month] and [week] hold the date whose German rendering
    ([toLocaleDateString('de-DE', ...)]) labels the bucket; [None] is
    [null]. *)
Record MonthEntry := {
  m_month : Z;
  m_litersPerDay : option Q
}.

Record WeekEntry := {
  w_week : Z;
  w_litersPerDay : option Q
}.

Record Stats := {
  lastInterval : option LastInterval;
  yearStats : option YearStats;
  monthlyData : list MonthEntry;
  weeklyData : list WeekEntry
}.

(** ** [Array.prototype.sort]

    The sort is stable: an element moves past its right neighbour only
    when the comparator is strictly positive. *)

Fixpoint insert {A} (cmp : A -> A -> Z) (x : A) (l : list A) : list A :=
  match l with
  | [] => [x]
  | y :: l' => if cmp x y >? 0 then y :: insert cmp x l' else x :: l
  end.

Definition Array_sort {A} (cmp : A -> A -> Z) (a : list A) : list A :=
  fold_right (insert cmp) [] a.

(** [(a, b) => new Date(a.date) - new Date(b.date)] *)
Definition byDate (a b : Reading) : Z := date a - date b.

(** ** [calculateStats] *)

(** [(new Date(b.date) - new Date(a.date)) / (1000 * 60 * 60 * 24)] *)
Definition daysBetween (a b : Reading) : Q :=
  (inject_Z (date b - date a) / inject_Z msPerDay)%Q.

(** [(b.value - a.value) * 1000]: cubic metres to litres *)
Definition litersBetween (a b : Reading) : Q :=
  ((value b - value a) * 1000)%Q.

(** The indices [n, n-1, ..., 0] of a counting-down [for] loop. *)
Fixpoint countdown (n : nat) : list Z :=
  Z.of_nat n ::
  match n with
  | O => []
  | S k => countdown k
  end.

(** Lines 123-133, from the two readings picked at lines 121-122;
    [startDate] and [endDate] are the two [date] properties as stored. *)
Definition lastIntervalFrom (prevReading lastReading : Reading) : LastInterval :=
  let lastIntervalDays := daysBetween prevReading lastReading in
  let lastConsumption := litersBetween prevReading lastReading in
  let lastConsumptionPerDay :=
    if Qgtb lastIntervalDays 0
    then (lastConsumption / lastIntervalDays)%Q else 0%Q in
  {| li_days := round1 lastIntervalDays;
     li_liters := round1 lastConsumption;
     li_litersPerDay := round1 lastConsumptionPerDay;
     li_startDate := date prevReading;
     li_endDate := date lastReading |}.

(** Lines 120-133. *)
Definition lastIntervalOf (sorted : list Reading) : option LastInterval :=
  lastReading <- at_ sorted (len sorted - 1) ;;
  prevReading <- at_ sorted (len sorted - 2) ;;
  ret (lastIntervalFrom prevReading lastReading).

(** [new Date(now.getFullYear(), 0, 1)] *)
Definition startOfYear (tz now : Z) : Z := Date_of tz (getFullYear tz now) 0 1.

(** Lines 144-151, from the two readings picked at lines 142-143. *)
Definition yearStatsFrom (firstYearReading lastYearReading : Reading)
  : YearStats :=
  let yearDays := daysBetween firstYearReading lastYearReading in
  let yearConsumption := litersBetween firstYearReading lastYearReading in
  {| ys_totalLiters := Math_round yearConsumption;
     ys_avgLitersPerDay :=
       if Qgtb yearDays 0 then round1 (yearConsumption / yearDays) else 0%Q;
     ys_days := Math_round yearDays |}.

(** Lines 136-152. *)
Definition yearStatsOf (tz : Z) (sorted : list Reading) (now : Z)
  : option (option YearStats) :=
  let yearReadings := filter (fun r => date r >=? startOfYear tz now) sorted in
  if len yearReadings >=? 2 then
    firstYearReading <- at_ yearReadings 0 ;;
    lastYearReading <- at_ yearReadings (len yearReadings - 1) ;;
    ret (Some (yearStatsFrom firstYearReading lastYearReading))
  else ret None.

(** [new Date(now.getFullYear(), now.getMonth() - i, 1)] *)
Definition monthDate (tz now i : Z) : Z :=
  Date_of tz (getFullYear tz now) (getMonth tz now - i) 1.

(** [new Date(monthDate.getFullYear(), monthDate.getMonth() + 1, 0)]:
    midnight at the start of the month's last day. *)
Definition monthEnd (tz now i : Z) : Z :=
  let monthDate := monthDate tz now i in
  Date_of tz (getFullYear tz monthDate) (getMonth tz monthDate + 1) 0.

(** Lines 176-181: [(consumption, days)] of a month's two readings. *)
Definition monthSpan (startReading endReading : Reading) : Q * Q :=
  if date endReading >? date startReading then
    let totalDays := daysBetween startReading endReading in
    let totalConsumption := litersBetween startReading endReading in
    (totalConsumption, totalDays)
  else (0%Q, 0%Q).

(** Line 186 *)
Definition monthRate (span : Q * Q) : option Q :=
  let consumption := fst span in
  let days := snd span in
  if Qgtb days 0 then Some (round1 (consumption / days)) else None.

(** Body of the loop of lines 156-188. *)
Definition monthBucket (tz : Z) (sorted : list Reading) (now i : Z)
  : option MonthEntry :=
  let monthDate := monthDate tz now i in
  let monthEnd := monthEnd tz now i in
  let monthReadings :=
    filter (fun r => (date r >=? monthDate) && (date r <=? monthEnd)) sorted in
  let readingsBefore := filter (fun r => date r <? monthDate) sorted in
  let readingsInOrBefore := filter (fun r => date r <=? monthEnd) sorted in
  span <-
    (if (len readingsBefore >? 0)
        && (len readingsInOrBefore >? len readingsBefore)
     then
       startReading <- at_ readingsBefore (len readingsBefore - 1) ;;
       endReading <- at_ readingsInOrBefore (len readingsInOrBefore - 1) ;;
       ret (monthSpan startReading endReading)
     else ret (0%Q, 0%Q)) ;;
  ret {| m_month := monthDate; m_litersPerDay := monthRate span |}.

(** [new Date(now.getTime() - (i + 1) * 7 * 24 * 60 * 60 * 1000)] *)
Definition weekStart (now i : Z) : Z := now - (i + 1) * 7 * 24 * 60 * 60 * 1000.

(** [new Date(now.getTime() - i * 7 * 24 * 60 * 60 * 1000)] *)
Definition weekEnd (now i : Z) : Z := now - i * 7 * 24 * 60 * 60 * 1000.

(** Lines 209-214: the rate of a week's two readings. *)
Definition weekRate (startReading endReading : Reading) : option Q :=
  let days := daysBetween startReading endReading in
  let consumption := litersBetween startReading endReading in
  if Qgtb days 0 then Some (round1 (consumption / days)) else None.

(** Body of the loop of lines 195-221. *)
Definition weekBucket (sorted : list Reading) (now i : Z) : option WeekEntry :=
  let weekStart := weekStart now i in
  let weekEnd := weekEnd now i in
  let readingsBefore := filter (fun r => date r <=? weekStart) sorted in
  let readingsAfter := filter (fun r => date r <=? weekEnd) sorted in
  litersPerDay <-
    (if (len readingsBefore >? 0) && (len readingsAfter >? len readingsBefore)
     then
       startReading <- at_ readingsBefore (len readingsBefore - 1) ;;
       endReading <- at_ readingsAfter (len readingsAfter - 1) ;;
       ret (weekRate startReading endReading)
     else ret None) ;;
  ret {| w_week := weekStart; w_litersPerDay := litersPerDay |}.

(** The early return of lines 109-114. *)
Definition noStats : Stats :=
  {| lastInterval := None; yearStats := None;
     monthlyData := []; weeklyData := [] |}.

(** Lines 107-229; [now] is the [new Date()] of line 136. *)
Definition calculateStats (tz : Z) (readings : list Reading) (now : Z)
  : option Stats :=
  if len readings <? 2 then ret noStats
  else
    let sorted := Array_sort byDate readings in
    lastInterval <- lastIntervalOf sorted ;;
    yearStats <- yearStatsOf tz sorted now ;;
    monthlyData <- mapM (monthBucket tz sorted now) (countdown 11) ;;
    weeklyData <- mapM (weekBucket sorted now) (countdown 51) ;;
    ret {| lastInterval := Some lastInterval; yearStats := yearStats;
           monthlyData := monthlyData; weeklyData := weeklyData |}.

(** ** [calculateStats] over a store of arrays

    JavaScript arrays are references.  To tell what the function does to
    the caller's array, the same code is written once more over a store:
    an array is a location, [[...a]] and [filter] allocate, [sort] works
    in place and is recorded in the log of writes.  The arrays the
    function builds with [push] for its result are fresh and local; they
    stay lists. *)

Module Store.

Definition loc := nat.

Record heap := {
  arrays : list (list Reading);
  writes : list loc
}.

Definition M (A : Type) : Type := heap -> option (A * heap).

Definition ret {A} (a : A) : M A := fun h => Some (a, h).

Definition bind {A B} (m : M A) (k : A -> M B) : M B :=
  fun h =>
    match m h with
    | Some (a, h') => k a h'
    | None => None
    end.

Notation "x <~ m ;; k" := (bind m (fun x => k))
  (at level 61, m at next level, right associativity).

Fixpoint mapM {A B} (f : A -> M B) (l : list A) : M (list B) :=
  match l with
  | [] => ret []
  | x :: xs => y <~ f x ;; ys <~ mapM f xs ;; ret (y :: ys)
  end.

(** The elements of the array at [l]; a dangling reference is an error. *)
Definition contents (l : loc) : M (list Reading) :=
  fun h =>
    match nth_error (arrays h) l with
    | Some a => Some (a, h)
    | None => None
    end.

Definition alloc (a : list Reading) : M loc :=
  fun h => Some (List.length (arrays h),
                 {| arrays := arrays h ++ [a]; writes := writes h |}).

Fixpoint update {A} (l : list A) (n : nat) (x : A) : list A :=
  match l, n with
  | [], _ => []
  | _ :: l', O => x :: l'
  | y :: l', S n' => y :: update l' n' x
  end.

Definition store (l : loc) (a : list Reading) : M unit :=
  fun h => Some (tt, {| arrays := update (arrays h) l a;
                        writes := writes h ++ [l] |}).

(** [a.length] *)
Definition length (l : loc) : M Z :=
  a <~ contents l ;; ret (len a).

(** [a[i]], whose properties are then read *)
Definition get (l : loc) (i : Z) : M Reading :=
  a <~ contents l ;; fun h =>
    match at_ a i with
    | Some r => Some (r, h)
    | None => None
    end.

(** [[...a]] *)
Definition spread (l : loc) : M loc :=
  a <~ contents l ;; alloc a.

(** [a.sort(cmp)]: sorts [a] itself and returns it. *)
Definition sort (l : loc) (cmp : Reading -> Reading -> Z) : M loc :=
  a <~ contents l ;; _ <~ store l (Array_sort cmp a) ;; ret l.

(** [a.filter(p)] *)
Definition filter (l : loc) (p : Reading -> bool) : M loc :=
  a <~ contents l ;; alloc (List.filter p a).

Definition lastIntervalOf (sorted : loc) : M LastInterval :=
  n <~ length sorted ;;
  lastReading <~ get sorted (n - 1) ;;
  n <~ length sorted ;;
  prevReading <~ get sorted (n - 2) ;;
  ret (lastIntervalFrom prevReading lastReading).

Definition yearStatsOf (tz : Z) (sorted : loc) (now : Z)
  : M (option YearStats) :=
  yearReadings <~ filter sorted (fun r => date r >=? startOfYear tz now) ;;
  n <~ length yearReadings ;;
  if n >=? 2 then
    firstYearReading <~ get yearReadings 0 ;;
    n <~ length yearReadings ;;
    lastYearReading <~ get yearReadings (n - 1) ;;
    ret (Some (yearStatsFrom firstYearReading lastYearReading))
  else ret None.

Definition monthBucket (tz : Z) (sorted : loc) (now i : Z) : M MonthEntry :=
  let monthDate := monthDate tz now i in
  let monthEnd := monthEnd tz now i in
  monthReadings <~
    filter sorted
      (fun r => (date r >=? monthDate) && (date r <=? monthEnd)) ;;
  readingsBefore <~ filter sorted (fun r => date r <? monthDate) ;;
  readingsInOrBefore <~ filter sorted (fun r => date r <=? monthEnd) ;;
  nb <~ length readingsBefore ;;
  ni <~ length readingsInOrBefore ;;
  span <~
    (if (nb >? 0) && (ni >? nb) then
       startReading <~ get readingsBefore (nb - 1) ;;
       endReading <~ get readingsInOrBefore (ni - 1) ;;
       ret (monthSpan startReading endReading)
     else ret (0%Q, 0%Q)) ;;
  ret {| m_month := monthDate; m_litersPerDay := monthRate span |}.

Definition weekBucket (sorted : loc) (now i : Z) : M WeekEntry :=
  let weekStart := weekStart now i in
  let weekEnd := weekEnd now i in
  readingsBefore <~ filter sorted (fun r => date r <=? weekStart) ;;
  readingsAfter <~ filter sorted (fun r => date r <=? weekEnd) ;;
  nb <~ length readingsBefore ;;
  na <~ length readingsAfter ;;
  litersPerDay <~
    (if (nb >? 0) && (na >? nb) then
       startReading <~ get readingsBefore (nb - 1) ;;
       endReading <~ get readingsAfter (na - 1) ;;
       ret (weekRate startReading endReading)
     else ret None) ;;
  ret {| w_week := weekStart; w_litersPerDay := litersPerDay |}.

Definition calculateStats (tz : Z) (readings : loc) (now : Z) : M Stats :=
  n <~ length readings ;;
  if n <? 2 then ret noStats
  else
    copy <~ spread readings ;;
    sorted <~ sort copy byDate ;;
    lastInterval <~ lastIntervalOf sorted ;;
    yearStats <~ yearStatsOf tz sorted now ;;
    monthlyData <~ mapM (monthBucket tz sorted now) (countdown 11) ;;
    weeklyData <~ mapM (weekBucket sorted now) (countdown 51) ;;
    ret {| lastInterval := Some lastInterval; yearStats := yearStats;
           monthlyData := monthlyData; weeklyData := weeklyData |}.

(** [h'] is [h] with more arrays allocated and nothing written. *)
Definition extends (h h' : heap) : Prop :=
  (exists ext, arrays h' = arrays h ++ ext) /\ writes h' = writes h.

(** What a stage does to the store, given what it computes on the
    elements: it allocates, and fails exactly when the computation on
    the elements fails. *)
Definition refines {A} (m : M A) (h : heap) (v : option A) : Prop :=
  exists h', extends h h' /\
    m h = match v with
          | Some a => Some (a, h')
          | None => None
          end.

End Store.

(** ** The bracketing rule in the words of the specification *)

(** Position and reading of the latest reading accepted by [p]: the last
    such one in the order of the list, positions counted from [i]. *)
Fixpoint latest_from (p : Reading -> bool) (l : list Reading) (i : nat)
  : option (nat * Reading) :=
  match l with
  | [] => None
  | r :: l' =>
      match latest_from p l' (S i) with
      | Some found => Some found
      | None => if p r then Some (i, r) else None
      end
  end.

Definition latest (p : Reading -> bool) (l : list Reading)
  : option (nat * Reading) := latest_from p l 0.

(** The rate across two readings, rounded to one decimal. *)
Definition rateBetween (before through : Reading) : Q :=
  round1 (litersBetween before through / daysBetween before through).

(** A bucket has a rate exactly when [before] exists and [through] comes
    strictly later in the sort order. *)
Definition bracketRate (before through : option (nat * Reading)) : option Q :=
  match before, through with
  | Some (i, b), Some (j, t) =>
      if (i <? j)%nat then Some (rateBetween b t) else None
  | _, _ => None
  end.

(** Readings that agree on the [date] property and on the value. *)
Definition sameData (a b : Reading) : Prop :=
  date a = date b /\ value a = value b.

(** A reading without its metadata. *)
Definition strip (r : Reading) : Reading :=
  {| id := EmptyString; date := date r; value := value r;
     confidence := None; notes := None; image := None |}.

(** Two optional rates denote the same number, or are both absent. *)
Definition sameRate (a b : option Q) : Prop :=
  match a, b with
  | Some x, Some y => (x == y)%Q
  | None, None => True
  | _, _ => False
  end.

(** Ascending by timestamp. *)
Definition byDateSorted (l : list Reading) : Prop :=
  StronglySorted (fun a b => date a <= date b) l.

(** First and last element of an array of at least two. *)
Definition ends {A} (l : list A) : option (A * A) :=
  match l with
  | first :: _ :: _ => Some (first, last l first)
  | _ => None
  end.

(** The two windowed series. *)
Inductive window := Monthly | Weekly.

(** Loop indices of a window, oldest bucket first. *)
Definition indices (w : window) : list Z :=
  match w with
  | Monthly => countdown 11
  | Weekly => countdown 51
  end.

Definition bucketStart (w : window) (tz now i : Z) : Z :=
  match w with
  | Monthly => monthDate tz now i
  | Weekly => weekStart now i
  end.

Definition bucketEnd (w : window) (tz now i : Z) : Z :=
  match w with
  | Monthly => monthEnd tz now i
  | Weekly => weekEnd now i
  end.

(** A timestamp inside bucket [i]: a month owns its first instant, a
    week does not. *)
Definition inBucket (w : window) (tz now i t : Z) : Prop :=
  match w with
  | Monthly => monthDate tz now i <= t <= monthEnd tz now i
  | Weekly => weekStart now i < t <= weekEnd now i
  end.

(** The [litersPerDay] column of a series. *)
Definition rates (w : window) (st : Stats) : list (option Q) :=
  match w with
  | Monthly => map m_litersPerDay (monthlyData st)
  | Weekly => map w_litersPerDay (weeklyData st)
  end.

(** The [before] and [through] endpoints of bucket [i] as
    [calculateStats] takes them: a month looks strictly before its
    start, a week at or before it. *)
Definition beforeOf (w : window) (tz now : Z) (sorted : list Reading) (i : Z)
  : option (nat * Reading) :=
  match w with
  | Monthly => latest (fun r => date r <? monthDate tz now i) sorted
  | Weekly => latest (fun r => date r <=? weekStart now i) sorted
  end.

Definition throughOf (w : window) (tz now : Z) (sorted : list Reading) (i : Z)
  : option (nat * Reading) :=
  latest (fun r => date r <=? bucketEnd w tz now i) sorted.

(** [before] in the words of the specification, for either window: the
    latest reading with timestamp at or before the bucket's start. *)
Definition beforeAtOrBefore (w : window) (tz now : Z) (sorted : list Reading)
    (i : Z) : option (nat * Reading) :=
  latest (fun r => date r <=? bucketStart w tz now i) sorted.

(** ** Sample data *)

(** Time value of the date-only string [YYYY-MM-DD]: midnight UTC. *)
Definition isoDate (y m d : Z) : Z := MakeDate (MakeDay y (m - 1) d) 0.

(** The date-only string [YYYY-MM-DD] as a stored date. *)
Definition dateOnly (y m d : Z) : DateValue :=
  {| stored := JString (pad4 y ++ "-" ++ pad2 m ++ "-" ++ pad2 d);
     time := isoDate y m d |}.

(** A reading without metadata, dated by the [toISOString] text of [t]. *)
Definition reading (t : Z) (v : Q) : Reading :=
  {| id := EmptyString; date := isoStamp t; value := v;
     confidence := None; notes := None; image := None |}.

(** One reading long before the monthly window and one at the first
    instant of each of its months. *)
Definition oneReadingPerMonth (now : Z) : list Reading :=
  reading (isoDate 2020 1 1) 0
  :: map (fun i => reading (monthDate 0 now i) (inject_Z (100 - i)))
       (countdown 11).

(** ** The routes of [server.js] (lines 84-105 and 282-440)

    The server keeps two things on disk: the data file and the images
    directory.  A request is handled against the session of its client
    and the clock; what the image pipeline and the vision model return
    for an upload comes with the request.  Requests are taken as the
    handlers receive them, after [express.json] and [multer] have
    accepted them, and the file system carries out what it is asked.
    A [date] in the body of a manual entry comes with the time value
    that [new Date] reads from it. *)

(** The data file and the names of the files in the images directory.
    The data file is [None] when reading or parsing it throws, and else
    the array it holds under [readings].  This is the shape of every
    file that [saveData] writes.  A file that parses to something else
    is not modelled: with [{}], say, [data.readings] is [undefined] and
    the routes that read it throw. *)
Record Server := {
  dataFile : option (list Reading);
  images : list string
}.

(** Lines 94-101: the readings of the data file, none when it cannot be
    read. *)
Definition loadData (srv : Server) : list Reading :=
  match dataFile srv with
  | Some readings => readings
  | None => []
  end.

(** Lines 103-105. *)
Definition saveData (srv : Server) (readings : list Reading) : Server :=
  {| dataFile := Some readings; images := images srv |}.

(** [fs.writeFileSync(imagePath, ...)]: creates or overwrites. *)
Definition writeImage (srv : Server) (name : string) : Server :=
  {| dataFile := dataFile srv;
     images := if existsb (String.eqb name) (images srv)
               then images srv else images srv ++ [name] |}.

(** [if (fs.existsSync(imagePath)) fs.unlinkSync(imagePath)] *)
Definition unlinkImage (srv : Server) (name : string) : Server :=
  {| dataFile := dataFile srv;
     images := filter (fun f => negb (String.eqb name f)) (images srv) |}.

(** What the vision model answered for an upload. *)
Record Analysis := {
  a_value : JValue;
  a_confidence : option string;
  a_notes : option string
}.

(** What [sharp] and [analyzeWaterMeterImage] do for an upload: throw,
    or hand back the parsed answer of the model. *)
Inductive Pipeline :=
| Threw (message : string)
| Analysed (analysis : Analysis).

Inductive Body :=
| Error (error : string)
| ErrorWithAnalysis (error : string) (analysis : Analysis)
| AuthStatus (authenticated : bool)
| Success
| Data (readings : list Reading) (stats : Stats)
| Readings (readings : list Reading)
| NewReading (reading : Reading) (stats : Stats)
| Deleted (stats : Stats).

Record Response := {
  status : Z;
  body : Body
}.

(** [res.json(b)] *)
Definition json (b : Body) : Response := {| status := 200; body := b |}.

(** [res.status(code).json({ error })] *)
Definition errorJson (code : Z) (error : string) : Response :=
  {| status := code; body := Error error |}.

(** The answer of Express when a handler throws. *)
Definition uncaught : Response := errorJson 500 "Internal Server Error".

(** The readings of the clock during one request: [new Date()] at the
    start of the upload handler, [Date.now()] for the id, [new Date()]
    for the default date of a manual entry, and [new Date()] inside
    [calculateStats]. *)
Record Clock := {
  atStart : Z;
  atId : Z;
  atDate : Z;
  atStats : Z
}.

Inductive Request :=
| GetAuthStatus
| PostLogin (password : JValue)
| PostLogout
| GetData
| GetReadings
| PostReading (photo : bool) (pipeline : Pipeline)
| PostReadingManual (value : JValue) (date : option DateValue)
| DeleteReading (id : string).

(** Response, session and server after a request. *)
Definition Outcome : Type := Response * bool * Server.

(** Lines 85-91. *)
Definition requireAuth (session : bool) (srv : Server) (next : Outcome)
  : Outcome :=
  if session then next else (errorJson 401 "Unauthorized", session, srv).

(** Lines 284-286. *)
Definition authStatus (session : bool) (srv : Server) : Outcome :=
  (json (AuthStatus session), session, srv).

(** Lines 289-298: [password === APP_PASSWORD]. *)
Definition login (APP_PASSWORD : string) (password : JValue)
    (session : bool) (srv : Server) : Outcome :=
  match password with
  | JString s =>
      if String.eqb s APP_PASSWORD then (json Success, true, srv)
      else (errorJson 401 "Invalid password", session, srv)
  | _ => (errorJson 401 "Invalid password", session, srv)
  end.

(** Lines 301-304. *)
Definition logout (srv : Server) : Outcome := (json Success, false, srv).

(** Lines 307-315. *)
Definition getData (tz : Z) (c : Clock) (session : bool) (srv : Server)
  : Outcome :=
  let data := loadData srv in
  match calculateStats tz data (atStats c) with
  | Some stats => (json (Data data stats), session, srv)
  | None => (uncaught, session, srv)
  end.

(** Lines 318-321. *)
Definition getReadings (session : bool) (srv : Server) : Outcome :=
  (json (Readings (loadData srv)), session, srv).

(** Lines 331-334: [photo_<date>_<time>.jpg], the date from
    [toISOString] (UTC), the time from [toTimeString] (local). *)
Definition photoName (tz now : Z) : string :=
  let dateStr :=
    (pad4 (YearFromTime now) ++ "-" ++ pad2 (MonthFromTime now + 1) ++ "-"
     ++ pad2 (DateFromTime now))%string in
  let timeStr :=
    (pad2 (HourFromTime (LocalTime tz now)) ++ "-"
     ++ pad2 (MinFromTime (LocalTime tz now)) ++ "-"
     ++ pad2 (SecFromTime (LocalTime tz now)))%string in
  ("photo_" ++ dateStr ++ "_" ++ timeStr ++ ".jpg")%string.

(** Lines 324-383. *)
Definition postReading (tz : Z) (c : Clock) (photo : bool)
    (pipeline : Pipeline) (session : bool) (srv : Server) : Outcome :=
  if negb photo then (errorJson 400 "No photo uploaded", session, srv)
  else
    let now := atStart c in
    let filename := photoName tz now in
    match pipeline with
    | Threw message => (errorJson 500 message, session, srv)
    | Analysed analysis =>
        match a_value analysis with
        | JNumber value =>
            if falsy (JNumber value) then
              ({| status := 400;
                  body := ErrorWithAnalysis
                            "Could not read meter value from image" analysis |},
               session, srv)
            else
              let srv1 := writeImage srv filename in
              let data := loadData srv1 in
              let newReading :=
                {| id := toString (atId c);
                   date := isoStamp now;
                   value := value;
                   confidence := a_confidence analysis;
                   notes := a_notes analysis;
                   image := Some filename |} in
              let readings := data ++ [newReading] in
              let srv2 := saveData srv1 readings in
              match calculateStats tz readings (atStats c) with
              | Some stats => (json (NewReading newReading stats), session, srv2)
              | None => (errorJson 500 "TypeError", session, srv2)
              end
        | _ =>
            ({| status := 400;
                body := ErrorWithAnalysis
                          "Could not read meter value from image" analysis |},
             session, srv)
        end
    end.

(** Lines 386-413.  [date] is the [date] of the body, [None] when the
    body has none; line 396 replaces a falsy one by the clock. *)
Definition postReadingManual (tz : Z) (c : Clock) (value : JValue)
    (date : option DateValue) (session : bool) (srv : Server) : Outcome :=
  match value with
  | JNumber v =>
      if Qgtb 0 v then (errorJson 400 "Invalid value", session, srv)
      else
        let data := loadData srv in
        let newReading :=
          {| id := toString (atId c);
             date := match date with
                     | Some d =>
                         if falsy (stored d) then isoStamp (atDate c) else d
                     | None => isoStamp (atDate c)
                     end;
             value := v;
             confidence := Some "manual"%string;
             notes := Some "Manually entered"%string;
             image := None |} in
        let readings := data ++ [newReading] in
        let srv' := saveData srv readings in
        match calculateStats tz readings (atStats c) with
        | Some stats => (json (NewReading newReading stats), session, srv')
        | None => (uncaught, session, srv')
        end
  | _ => (errorJson 400 "Invalid value", session, srv)
  end.

(** The reading of lines 394-401, by itself. *)
Definition manualReading (c : Clock) (v : Q) (given : option DateValue)
  : Reading :=
  {| id := toString (atId c);
     date := match given with
             | Some d => if falsy (stored d) then isoStamp (atDate c) else d
             | None => isoStamp (atDate c)
             end;
     value := v;
     confidence := Some "manual"%string;
     notes := Some "Manually entered"%string;
     image := None |}.

(** [a.findIndex(p)] *)
Fixpoint findIndex_from {A} (p : A -> bool) (a : list A) (i : Z) : Z :=
  match a with
  | [] => -1
  | x :: a' => if p x then i else findIndex_from p a' (i + 1)
  end.

Definition findIndex {A} (p : A -> bool) (a : list A) : Z :=
  findIndex_from p a 0.

(** [a.splice(start, 1)]: the array without the element at [start]; a
    negative [start] counts from the end. *)
Definition splice1 {A} (a : list A) (start : Z) : list A :=
  let from :=
    if start <? 0 then Z.max (len a + start) 0 else Z.min start (len a) in
  firstn (Z.to_nat from) a ++ skipn (S (Z.to_nat from)) a.

(** Lines 416-440. *)
Definition deleteReading (tz : Z) (c : Clock) (id' : string)
    (session : bool) (srv : Server) : Outcome :=
  let data := loadData srv in
  let readingIndex := findIndex (fun r => String.eqb (id r) id') data in
  if readingIndex =? -1 then (errorJson 404 "Reading not found", session, srv)
  else
    match at_ data readingIndex with
    | None => (uncaught, session, srv)
    | Some reading =>
        let srv1 :=
          match image reading with
          | Some name =>
              if String.eqb name EmptyString then srv
              else unlinkImage srv name
          | None => srv
          end in
        let readings := splice1 data readingIndex in
        let srv2 := saveData srv1 readings in
        match calculateStats tz readings (atStats c) with
        | Some stats => (json (Deleted stats), session, srv2)
        | None => (uncaught, session, srv2)
        end
    end.

(** The routing table. *)
Definition handle (APP_PASSWORD : string) (tz : Z) (c : Clock) (req : Request)
    (session : bool) (srv : Server) : Outcome :=
  match req with
  | GetAuthStatus => authStatus session srv
  | PostLogin password => login APP_PASSWORD password session srv
  | PostLogout => logout srv
  | GetData => requireAuth session srv (getData tz c session srv)
  | GetReadings => requireAuth session srv (getReadings session srv)
  | PostReading photo pipeline =>
      requireAuth session srv (postReading tz c photo pipeline session srv)
  | PostReadingManual value date =>
      requireAuth session srv (postReadingManual tz c value date session srv)
  | DeleteReading id' =>
      requireAuth session srv (deleteReading tz c id' session srv)
  end.

(** One client's requests in order, with the answers. *)
Fixpoint serve (APP_PASSWORD : string) (tz : Z) (reqs : list (Clock * Request))
    (session : bool) (srv : Server) : list Response * bool * Server :=
  match reqs with
  | [] => ([], session, srv)
  | (c, req) :: rest =>
      let '(resp, session1, srv1) := handle APP_PASSWORD tz c req session srv in
      let '(resps, session2, srv2) := serve APP_PASSWORD tz rest session1 srv1 in
      (resp :: resps, session2, srv2)
  end.

(** A login request that carries the configured password. *)
Definition correctLogin (APP_PASSWORD : string) (req : Request) : bool :=
  match req with
  | PostLogin (JString s) => String.eqb s APP_PASSWORD
  | _ => false
  end.

(** The routes behind [requireAuth]. *)
Definition protected (req : Request) : bool :=
  match req with
  | GetData | GetReadings | PostReading _ _ | PostReadingManual _ _
  | DeleteReading _ => true
  | _ => false
  end.

(** * Properties *)

(** ** Dates *)

Lemma YearFromTime_spec t :
  TimeFromYear (YearFromTime t) <= t < TimeFromYear (YearFromTime t + 1).
Proof.
  unfold TimeFromYear, YearFromTime, Day, DayFromYear, msPerDay.
  repeat match goal with
  | |- context [ ?a <=? ?b ] => destruct (Z.leb_spec a b)
  end; Z.to_euclidean_division_equations; lia.
Qed.



(** ** Numbers *)

Lemma Qgtb_true a b : Qgtb a b = true <-> (b < a)%Q.
Proof.
  unfold Qgtb. rewrite negb_true_iff, <- not_true_iff_false, Qle_bool_iff.
  split; [apply Qnot_le_lt | apply Qlt_not_le].
Qed.

Lemma Qgtb_false a b : Qgtb a b = false <-> (a <= b)%Q.
Proof.
  unfold Qgtb. rewrite negb_false_iff. apply Qle_bool_iff.
Qed.

(** [Math.round] returns the integer within one half, halves going up. *)
Lemma Math_round_spec x :
  exists n : Z, Math_round x = inject_Z n /\
    (x - (1 # 2) < inject_Z n <= x + (1 # 2))%Q.
Proof.
  exists (Qfloor (x + (1 # 2))). split; [reflexivity |]. split.
  - pose proof (Qlt_floor (x + (1 # 2))) as H.
    rewrite inject_Z_plus in H. simpl inject_Z in H.
    apply (Qplus_lt_l _ _ 1). 
    eapply Qle_lt_trans; [| apply H].
    ring_simplify. apply Qle_refl.
  - apply Qfloor_le.
Qed.

Lemma round1_zero : (round1 0 == 0)%Q.
Proof. reflexivity. Qed.

Lemma daysBetween_pos a b : date a < date b -> Qgtb (daysBetween a b) 0 = true.
Proof.
  intros H. apply Qgtb_true. unfold daysBetween.
  apply Qlt_shift_div_l; [reflexivity |].
  rewrite Qmult_0_l. rewrite <- (Zlt_Qlt 0). lia.
Qed.

Lemma daysBetween_nonpos a b : date b <= date a -> Qgtb (daysBetween a b) 0 = false.
Proof.
  intros H. apply Qgtb_false. unfold daysBetween.
  apply Qle_shift_div_r; [reflexivity |].
  rewrite Qmult_0_l. rewrite <- (Zle_Qle _ 0). lia.
Qed.

(** ** Arrays *)

Lemma snoc_cases {A} (l : list A) : l = [] \/ exists l' x, l = l' ++ [x].
Proof.
  destruct l as [| a l]; [now left | right].
  destruct (exists_last (l := a :: l)) as [l' [x E]]; [discriminate | eauto].
Qed.

Lemma len_app {A} (l1 l2 : list A) : len (l1 ++ l2) = len l1 + len l2.
Proof. unfold len. rewrite length_app. lia. Qed.

Lemma len_nonneg {A} (l : list A) : 0 <= len l.
Proof. unfold len. lia. Qed.

Lemma at_snoc {A} (l : list A) x : at_ (l ++ [x]) (len (l ++ [x]) - 1) = Some x.
Proof.
  unfold at_. rewrite len_app. unfold len. simpl.
  replace (Z.of_nat (length l) + 1 - 1) with (Z.of_nat (length l)) by lia.
  destruct (Z.ltb_spec (Z.of_nat (length l)) 0); [lia |].
  rewrite Nat2Z.id, nth_error_app2, Nat.sub_diag; [reflexivity | lia].
Qed.

Lemma at_snoc2 {A} (l : list A) x y :
  at_ (l ++ [x; y]) (len (l ++ [x; y]) - 2) = Some x.
Proof.
  unfold at_. rewrite len_app. unfold len. simpl.
  replace (Z.of_nat (length l) + 2 - 2) with (Z.of_nat (length l)) by lia.
  destruct (Z.ltb_spec (Z.of_nat (length l)) 0); [lia |].
  rewrite Nat2Z.id, nth_error_app2, Nat.sub_diag; [reflexivity | lia].
Qed.

Lemma at_map {A B} (f : A -> B) l i : at_ (map f l) i = option_map f (at_ l i).
Proof.
  unfold at_. destruct (i <? 0); [reflexivity | apply nth_error_map].
Qed.

Lemma len_map {A B} (f : A -> B) l : len (map f l) = len l.
Proof. unfold len. now rewrite length_map. Qed.

Lemma filter_map_comm {A B} (f : A -> B) (p : B -> bool) l :
  filter p (map f l) = map f (filter (fun x => p (f x)) l).
Proof.
  induction l as [| x l IH]; simpl; [reflexivity |].
  destruct (p (f x)); simpl; now rewrite IH.
Qed.

Lemma snoc2_cases {A} (l : list A) :
  (2 <= length l)%nat -> exists pre x y, l = pre ++ [x; y].
Proof.
  intros H. destruct (snoc_cases l) as [-> | [l1 [y ->]]]; [simpl in H; lia |].
  rewrite length_app in H. simpl in H.
  destruct (snoc_cases l1) as [-> | [l2 [x ->]]]; [simpl in H; lia |].
  exists l2, x, y. now rewrite <- app_assoc.
Qed.

(** ** The sort *)

Lemma insert_perm {A} (cmp : A -> A -> Z) x l : Permutation (x :: l) (insert cmp x l).
Proof.
  induction l as [| y l IH]; simpl; [reflexivity |].
  destruct (cmp x y >? 0); [| reflexivity].
  rewrite perm_swap. now apply perm_skip.
Qed.

Lemma Array_sort_perm {A} (cmp : A -> A -> Z) l : Permutation l (Array_sort cmp l).
Proof.
  induction l as [| x l IH]; simpl; [reflexivity |].
  rewrite <- insert_perm. now apply perm_skip.
Qed.

Lemma Array_sort_length {A} (cmp : A -> A -> Z) l :
  length (Array_sort cmp l) = length l.
Proof. symmetry. apply Permutation_length, Array_sort_perm. Qed.

Lemma insert_sorted x l : byDateSorted l -> byDateSorted (insert byDate x l).
Proof.
  unfold byDateSorted. induction 1 as [| y l Hs IH Hy]; simpl.
  - repeat constructor.
  - unfold byDate at 1. destruct (Z.gtb_spec (date x - date y) 0).
    + constructor; [exact IH |].
      apply (Permutation_Forall (insert_perm byDate x l)).
      constructor; [lia | exact Hy].
    + constructor; [now constructor |].
      constructor; [lia |].
      eapply Forall_impl; [| exact Hy]. simpl. intros; lia.
Qed.

Lemma Array_sort_sorted l : byDateSorted (Array_sort byDate l).
Proof.
  induction l as [| x l IH]; simpl; [constructor | now apply insert_sorted].
Qed.

(** Readings sharing a timestamp keep their relative order. *)
Lemma insert_stable t x l :
  byDateSorted l ->
  filter (fun r => date r =? t) (insert byDate x l)
  = filter (fun r => date r =? t) (x :: l).
Proof.
  unfold byDateSorted. induction 1 as [| y l Hs IH Hy]; [reflexivity |].
  simpl insert. unfold byDate at 1.
  destruct (Z.gtb_spec (date x - date y) 0) as [Hgt | Hle]; [| reflexivity].
  simpl in *. rewrite IH.
  destruct (Z.eqb_spec (date x) t), (Z.eqb_spec (date y) t);
    try reflexivity; lia.
Qed.

Lemma Array_sort_stable t l :
  filter (fun r => date r =? t) (Array_sort byDate l)
  = filter (fun r => date r =? t) l.
Proof.
  induction l as [| x l IH]; [reflexivity |].
  simpl Array_sort. rewrite insert_stable by apply Array_sort_sorted.
  simpl. now rewrite IH.
Qed.

Lemma insert_map {A B} (f : A -> B) cmp cmp' x l :
  (forall a b, cmp' (f a) (f b) = cmp a b) ->
  insert cmp' (f x) (map f l) = map f (insert cmp x l).
Proof.
  intros H. induction l as [| y l IH]; simpl; [reflexivity |].
  rewrite H. destruct (cmp x y >? 0); simpl; now rewrite ?IH.
Qed.

Lemma Array_sort_map {A B} (f : A -> B) cmp cmp' l :
  (forall a b, cmp' (f a) (f b) = cmp a b) ->
  Array_sort cmp' (map f l) = map f (Array_sort cmp l).
Proof.
  intros H. induction l as [| x l IH]; simpl; [reflexivity |].
  rewrite IH. now apply insert_map.
Qed.

(** Two ascending arrangements of the same readings coincide when a
    timestamp determines the reading. *)
Lemma sorted_perm_unique l1 : forall l2,
  byDateSorted l1 -> byDateSorted l2 -> Permutation l1 l2 ->
  (forall a b, In a l1 -> In b l1 -> time (date a) = time (date b) -> a = b) ->
  l1 = l2.
Proof.
  unfold byDateSorted.
  induction l1 as [| x l1 IH]; intros l2 S1 S2 P Inj.
  - now apply Permutation_nil in P.
  - destruct l2 as [| y l2].
    { symmetry in P. now apply Permutation_nil in P. }
    inversion S1 as [| ? ? S1' F1]; inversion S2 as [| ? ? S2' F2]; subst.
    rewrite Forall_forall in F1, F2.
    assert (Hy : In y (x :: l1)).
    { apply (Permutation_in y (Permutation_sym P)). now left. }
    assert (Hx : In x (y :: l2)).
    { apply (Permutation_in x P). now left. }
    assert (E : x = y).
    { apply Inj; [now left | exact Hy |].
      destruct Hy as [-> | Hy]; [reflexivity |].
      destruct Hx as [-> | Hx]; [reflexivity |].
      apply F1 in Hy. apply F2 in Hx. lia. }
    subst y. f_equal. apply IH; auto.
    + now apply Permutation_cons_inv in P.
    + intros a b Ha Hb. apply Inj; now right.
Qed.

(** ** Filters of a sorted array are prefixes *)

Lemma sorted_split a l :
  byDateSorted l ->
  l = filter (fun r => date r <=? a) l
      ++ filter (fun r => negb (date r <=? a)) l.
Proof.
  unfold byDateSorted. induction 1 as [| x l Hs IH Hx]; [reflexivity |].
  simpl. destruct (Z.leb_spec (date x) a) as [Hle | Hgt]; simpl.
  - now rewrite <- IH.
  - assert (E : filter (fun r => date r <=? a) l = []).
    { destruct (filter (fun r => date r <=? a) l) as [| r rest] eqn:Ef;
        [reflexivity | exfalso].
      assert (Hr : In r (filter (fun r => date r <=? a) l))
        by (rewrite Ef; now left).
      apply filter_In in Hr. destruct Hr as [Hr Hp].
      rewrite Forall_forall in Hx. apply Hx in Hr. apply Z.leb_le in Hp. lia. }
    rewrite E in IH |- *. simpl in *. now rewrite <- IH.
Qed.

(** ** The latest reading up to a boundary *)

Lemma latest_from_ext p q l : forall i,
  (forall r, p r = q r) -> latest_from p l i = latest_from q l i.
Proof.
  induction l as [| r l IH]; intros i H; simpl; [reflexivity |].
  now rewrite (IH (S i) H), H.
Qed.

Lemma latest_from_none p l : forall i,
  Forall (fun r => p r = false) l -> latest_from p l i = None.
Proof.
  induction l as [| r l IH]; intros i H; simpl; [reflexivity |].
  inversion H as [| ? ? Hr Hl]; subst. now rewrite IH, Hr.
Qed.

Lemma latest_from_snoc p pre x rest : forall i,
  p x = true -> Forall (fun r => p r = false) rest ->
  latest_from p (pre ++ x :: rest) i = Some ((i + length pre)%nat, x).
Proof.
  induction pre as [| r pre IH]; intros i Hx Hrest; simpl.
  - rewrite latest_from_none by exact Hrest. rewrite Hx.
    now rewrite Nat.add_0_r.
  - rewrite IH by assumption. do 2 f_equal. lia.
Qed.

Lemma Forall_filter_negb {A} (p : A -> bool) l :
  Forall (fun r => p r = false) (filter (fun r => negb (p r)) l).
Proof.
  apply Forall_forall. intros r Hr. apply filter_In in Hr.
  now apply negb_true_iff.
Qed.

Lemma latest_sorted_none a l :
  byDateSorted l -> filter (fun r => date r <=? a) l = [] ->
  latest (fun r => date r <=? a) l = None.
Proof.
  intros Hs E. unfold latest. rewrite (sorted_split a l Hs), E. simpl.
  apply latest_from_none, (Forall_filter_negb (fun r => date r <=? a)).
Qed.

Lemma latest_sorted_some a l pre x :
  byDateSorted l -> filter (fun r => date r <=? a) l = pre ++ [x] ->
  latest (fun r => date r <=? a) l = Some (length pre, x).
Proof.
  intros Hs E. unfold latest.
  assert (Hx : In x (filter (fun r => date r <=? a) l))
    by (rewrite E; apply in_or_app; right; now left).
  apply filter_In in Hx.
  rewrite (sorted_split a l Hs), E, <- app_assoc. simpl.
  rewrite latest_from_snoc; [reflexivity | apply Hx |].
  apply (Forall_filter_negb (fun r => date r <=? a)).
Qed.

(** The guard of lines 172 and 205 against the bracketing rule: on a
    sorted array either the guard fails and the rule gives no rate, or it
    holds, both array reads succeed, they return the two latest readings
    and these are strictly apart in time. *)
Lemma bracket_cases a b l :
  byDateSorted l ->
  let P := filter (fun r => date r <=? a) l in
  let Q := filter (fun r => date r <=? b) l in
  let before := latest (fun r => date r <=? a) l in
  let through := latest (fun r => date r <=? b) l in
  ((len P >? 0) && (len Q >? len P) = false /\
   bracketRate before through = None)
  \/
  ((len P >? 0) && (len Q >? len P) = true /\
   exists i x j y,
     at_ P (len P - 1) = Some x /\ at_ Q (len Q - 1) = Some y /\
     before = Some (i, x) /\ through = Some (j, y) /\ (i < j)%nat /\
     date x <= a /\ a < date y /\ date y <= b).
Proof.
  intros Hs P Q before through. subst before through.
  destruct (snoc_cases P) as [EP | [P' [x EP]]].
  { left. rewrite EP. split; [reflexivity |].
    now rewrite (latest_sorted_none a l Hs EP). }
  rewrite (latest_sorted_some a l P' x Hs EP).
  destruct (snoc_cases Q) as [EQ | [Q' [y EQ]]].
  { left. rewrite EQ, EP. split.
    - apply andb_false_iff. right. rewrite len_app. unfold len. simpl.
      apply not_true_iff_false. rewrite Z.gtb_ltb, Z.ltb_lt. lia.
    - now rewrite (latest_sorted_none b l Hs EQ). }
  rewrite (latest_sorted_some b l Q' y Hs EQ).
  rewrite EP, EQ, !at_snoc, !len_app. unfold len. simpl.
  destruct (Nat.ltb_spec (length P') (length Q')) as [Hlt | Hge].
  - right. split.
    + apply andb_true_iff. rewrite !Z.gtb_ltb, !Z.ltb_lt. lia.
    + exists (length P'), x, (length Q'), y.
      repeat split; try reflexivity; try assumption.
      * assert (Hx : In x P) by (rewrite EP; apply in_or_app; right; now left).
        apply filter_In in Hx. now apply Z.leb_le.
      * assert (Hy : nth_error l (length Q') = Some y).
        { rewrite (sorted_split b l Hs). fold Q. rewrite EQ, <- app_assoc.
          rewrite nth_error_app2, Nat.sub_diag by lia. reflexivity. }
        rewrite (sorted_split a l Hs) in Hy. fold P in Hy. rewrite EP in Hy.
        rewrite nth_error_app2 in Hy by (rewrite length_app; simpl; lia).
        apply nth_error_In, filter_In in Hy. destruct Hy as [_ Hy].
        apply negb_true_iff, Z.leb_gt in Hy. exact Hy.
      * assert (Hy : In y Q) by (rewrite EQ; apply in_or_app; right; now left).
        apply filter_In in Hy. now apply Z.leb_le.
  - left. split; [| reflexivity].
    apply andb_false_iff. right.
    apply not_true_iff_false. rewrite Z.gtb_ltb, Z.ltb_lt. lia.
Qed.

(** ** The four stages on a sorted array *)

Lemma weekBucket_bracket l now i :
  byDateSorted l ->
  weekBucket l now i =
  Some {| w_week := weekStart now i;
          w_litersPerDay :=
            bracketRate
              (latest (fun r => date r <=? weekStart now i) l)
              (latest (fun r => date r <=? weekEnd now i) l) |}.
Proof.
  intros Hs. unfold weekBucket.
  destruct (bracket_cases (weekStart now i) (weekEnd now i) l Hs)
    as [[Hc Hr] | [Hc (j & x & k & y & Hx & Hy & Hb & Ht & Hlt & Hxa & Hay & _)]];
    rewrite Hc.
  - now rewrite Hr.
  - rewrite Hx, Hy, Hb, Ht. simpl.
    apply Nat.ltb_lt in Hlt. rewrite Hlt.
    unfold weekRate. rewrite daysBetween_pos by lia. reflexivity.
Qed.

Lemma monthBucket_bracket tz l now i :
  byDateSorted l ->
  monthBucket tz l now i =
  Some {| m_month := monthDate tz now i;
          m_litersPerDay :=
            bracketRate
              (latest (fun r => date r <? monthDate tz now i) l)
              (latest (fun r => date r <=? monthEnd tz now i) l) |}.
Proof.
  intros Hs. unfold monthBucket.
  assert (E : forall r, (date r <? monthDate tz now i)
                        = (date r <=? monthDate tz now i - 1)).
  { intros r. destruct (Z.ltb_spec (date r) (monthDate tz now i)),
      (Z.leb_spec (date r) (monthDate tz now i - 1)); try reflexivity; lia. }
  rewrite (filter_ext _ _ E).
  unfold latest at 1. rewrite (latest_from_ext _ _ l 0%nat E). fold (latest (fun r => date r <=? monthDate tz now i - 1) l).
  destruct (bracket_cases (monthDate tz now i - 1) (monthEnd tz now i) l Hs)
    as [[Hc Hr] | [Hc (j & x & k & y & Hx & Hy & Hb & Ht & Hlt & Hxa & Hay & _)]];
    rewrite Hc.
  - rewrite Hr. reflexivity.
  - rewrite Hx, Hy, Hb, Ht. simpl.
    apply Nat.ltb_lt in Hlt. rewrite Hlt.
    unfold monthSpan. destruct (Z.gtb_spec (date y) (date x)); [| lia].
    unfold monthRate. simpl. rewrite daysBetween_pos by lia. reflexivity.
Qed.

Lemma mapM_total {A B} (f : A -> option B) (g : A -> B) l :
  (forall x, f x = Some (g x)) -> mapM f l = Some (map g l).
Proof.
  intros H. induction l as [| x l IH]; simpl; [reflexivity |].
  now rewrite H, IH.
Qed.

Lemma at_last {A} (l : list A) d :
  l <> [] -> at_ l (len l - 1) = Some (last l d).
Proof.
  intros H. destruct (snoc_cases l) as [-> | [l' [x ->]]]; [easy |].
  now rewrite at_snoc, last_last.
Qed.

Lemma ends_inv {A} (l : list A) f t :
  ends l = Some (f, t) <-> exists mid, l = f :: mid ++ [t].
Proof.
  split.
  - destruct l as [| a [| b l]]; try discriminate. unfold ends.
    intros H.
    assert (Hf : f = a) by congruence.
    assert (Ht : t = last (a :: b :: l) a) by congruence.
    subst f t. clear H.
    destruct (snoc_cases (a :: b :: l)) as [E | [l' [z E]]]; [discriminate |].
    rewrite E, last_last.
    destruct l' as [| a' mid]; [inversion E |].
    injection E as <- _. now exists mid.
  - intros [mid ->]. destruct mid as [| m mid]; [reflexivity |].
    unfold ends. cbn [app]. do 2 f_equal.
    exact (last_last (f :: m :: mid) t f).
Qed.


Lemma lastIntervalOf_snoc2 pre prev last :
  lastIntervalOf (pre ++ [prev; last]) = Some (lastIntervalFrom prev last).
Proof.
  unfold lastIntervalOf. rewrite at_snoc2.
  replace (pre ++ [prev; last]) with ((pre ++ [prev]) ++ [last])
    by now rewrite <- app_assoc.
  now rewrite at_snoc.
Qed.

Lemma yearStatsOf_ends tz l now :
  yearStatsOf tz l now =
  Some (option_map (fun ft => yearStatsFrom (fst ft) (snd ft))
          (ends (filter (fun r => date r >=? startOfYear tz now) l))).
Proof.
  unfold yearStatsOf.
  set (Y := filter (fun r => date r >=? startOfYear tz now) l).
  destruct Y as [| a [| b Y']]; try reflexivity.
  replace (len (a :: b :: Y') >=? 2) with true.
  2:{ symmetry. unfold len. simpl length. rewrite Z.geb_leb, Z.leb_le. lia. }
  rewrite (at_last (a :: b :: Y') a) by discriminate. reflexivity.
Qed.

(** The whole function, stage by stage. *)
Lemma calculateStats_few tz rs now :
  (length rs < 2)%nat -> calculateStats tz rs now = Some noStats.
Proof.
  intros H. unfold calculateStats.
  replace (len rs <? 2) with true; [reflexivity |].
  symmetry. apply Z.ltb_lt. unfold len. lia.
Qed.

Lemma calculateStats_two tz rs now :
  (2 <= length rs)%nat ->
  let sorted := Array_sort byDate rs in
  exists pre prev last,
    sorted = pre ++ [prev; last] /\
    calculateStats tz rs now =
    Some {|
      lastInterval := Some (lastIntervalFrom prev last);
      yearStats :=
        option_map (fun ft => yearStatsFrom (fst ft) (snd ft))
          (ends (filter (fun r => date r >=? startOfYear tz now) sorted));
      monthlyData :=
        map (fun i =>
               {| m_month := monthDate tz now i;
                  m_litersPerDay :=
                    bracketRate
                      (latest (fun r => date r <? monthDate tz now i) sorted)
                      (latest (fun r => date r <=? monthEnd tz now i) sorted)
               |}) (countdown 11);
      weeklyData :=
        map (fun i =>
               {| w_week := weekStart now i;
                  w_litersPerDay :=
                    bracketRate
                      (latest (fun r => date r <=? weekStart now i) sorted)
                      (latest (fun r => date r <=? weekEnd now i) sorted)
               |}) (countdown 51) |}.
Proof.
  intros H sorted.
  destruct (snoc2_cases sorted) as (pre & prev & last & E).
  { unfold sorted. now rewrite Array_sort_length. }
  exists pre, prev, last. split; [exact E |].
  unfold calculateStats.
  replace (len rs <? 2) with false.
  2:{ symmetry. apply Z.ltb_ge. unfold len. lia. }
  fold sorted.
  assert (Hs : byDateSorted sorted) by apply Array_sort_sorted.
  rewrite (mapM_total _ _ _ (fun i => monthBucket_bracket tz sorted now i Hs)).
  rewrite (mapM_total _ _ _ (fun i => weekBucket_bracket sorted now i Hs)).
  rewrite yearStatsOf_ends.
  rewrite E at 1. rewrite lastIntervalOf_snoc2. reflexivity.
Qed.

(** The function never throws. *)
Lemma calculateStats_total tz rs now : exists st, calculateStats tz rs now = Some st.
Proof.
  destruct (Nat.lt_ge_cases (length rs) 2) as [H | H].
  - eexists. now apply calculateStats_few.
  - destruct (calculateStats_two tz rs now H) as (? & ? & ? & _ & E). eauto.
Qed.

(** ** Metadata is never read *)

Lemma mapM_ext {A B} (f g : A -> option B) l :
  (forall x, f x = g x) -> mapM f l = mapM g l.
Proof.
  intros H. induction l as [| x l IH]; simpl; [reflexivity |].
  now rewrite H, IH.
Qed.

Ltac strip_reads :=
  rewrite ?filter_map_comm, ?len_map, ?at_map; cbn [strip date];
  repeat match goal with
  | |- context [ at_ ?l ?i ] => destruct (at_ l i); cbn [option_map bind]
  | |- context [ if ?c then _ else _ ] => destruct c
  end; try reflexivity.

Lemma lastIntervalOf_strip s : lastIntervalOf (map strip s) = lastIntervalOf s.
Proof. unfold lastIntervalOf. strip_reads. Qed.

Lemma yearStatsOf_strip tz s now :
  yearStatsOf tz (map strip s) now = yearStatsOf tz s now.
Proof. unfold yearStatsOf. strip_reads. Qed.

Lemma monthBucket_strip tz s now i :
  monthBucket tz (map strip s) now i = monthBucket tz s now i.
Proof. unfold monthBucket. strip_reads. Qed.

Lemma weekBucket_strip s now i :
  weekBucket (map strip s) now i = weekBucket s now i.
Proof. unfold weekBucket. strip_reads. Qed.

Lemma calculateStats_strip tz rs now :
  calculateStats tz (map strip rs) now = calculateStats tz rs now.
Proof.
  unfold calculateStats. rewrite len_map.
  destruct (len rs <? 2); [reflexivity |].
  rewrite (Array_sort_map strip byDate byDate) by reflexivity.
  rewrite lastIntervalOf_strip, yearStatsOf_strip.
  rewrite (mapM_ext _ _ _ (monthBucket_strip tz _ now)).
  rewrite (mapM_ext _ _ _ (weekBucket_strip _ now)).
  reflexivity.
Qed.

Lemma sameData_strip a b : sameData a b -> strip a = strip b.
Proof. intros [Hd Hv]. unfold strip. now rewrite Hd, Hv. Qed.

Lemma Forall2_sameData_strip l1 l2 :
  Forall2 sameData l1 l2 -> map strip l1 = map strip l2.
Proof.
  induction 1 as [| a b l1 l2 Hab _ IH]; simpl; [reflexivity |].
  now rewrite (sameData_strip a b Hab), IH.
Qed.

(** The result depends on the input only through its sorted form. *)
Lemma calculateStats_sorted_eq tz l1 l2 now :
  length l1 = length l2 ->
  Array_sort byDate l1 = Array_sort byDate l2 ->
  calculateStats tz l1 now = calculateStats tz l2 now.
Proof.
  intros Hl Hs. unfold calculateStats, len. now rewrite Hl, Hs.
Qed.

(** ** The store *)

Lemma lookup_old {A} (l ext : list A) n a :
  nth_error l n = Some a -> nth_error (l ++ ext) n = Some a.
Proof.
  intros H. rewrite nth_error_app1; [exact H |].
  apply nth_error_Some. congruence.
Qed.

Lemma lookup_new {A} (l ext : list A) a :
  nth_error (l ++ a :: ext) (length l) = Some a.
Proof. now rewrite nth_error_app2, Nat.sub_diag. Qed.

Lemma update_new {A} (l : list A) a b :
  Store.update (l ++ [a]) (length l) b = l ++ [b].
Proof. induction l as [| x l IH]; simpl; [reflexivity | now rewrite IH]. Qed.

Lemma extends_refl h : Store.extends h h.
Proof. split; [exists []; now rewrite app_nil_r | reflexivity]. Qed.

Lemma extends_trans h1 h2 h3 :
  Store.extends h1 h2 -> Store.extends h2 h3 -> Store.extends h1 h3.
Proof.
  intros [[e1 E1] W1] [[e2 E2] W2]. split; [| congruence].
  exists (e1 ++ e2). now rewrite E2, E1, app_assoc.
Qed.

Lemma extends_lookup h h' l a :
  Store.extends h h' ->
  nth_error (Store.arrays h) l = Some a -> nth_error (Store.arrays h') l = Some a.
Proof. intros [[e E] _] H. rewrite E. now apply lookup_old. Qed.

Lemma extends_alloc h a :
  Store.extends h {| Store.arrays := Store.arrays h ++ [a];
                     Store.writes := Store.writes h |}.
Proof. split; [now exists [a] | reflexivity]. Qed.

Lemma bind_length h l a {B} (k : Z -> Store.M B) :
  nth_error (Store.arrays h) l = Some a ->
  Store.bind (Store.length l) k h = k (len a) h.
Proof.
  intros H. unfold Store.length, Store.bind, Store.contents, Store.ret.
  now rewrite H.
Qed.

Lemma bind_get h l a i {B} (k : Reading -> Store.M B) :
  nth_error (Store.arrays h) l = Some a ->
  Store.bind (Store.get l i) k h =
  match at_ a i with
  | Some r => k r h
  | None => None
  end.
Proof.
  intros H. unfold Store.get, Store.bind, Store.contents.
  rewrite H. now destruct (at_ a i).
Qed.

Lemma bind_filter h l a p {B} (k : Store.loc -> Store.M B) :
  nth_error (Store.arrays h) l = Some a ->
  Store.bind (Store.filter l p) k h =
  k (length (Store.arrays h))
    {| Store.arrays := Store.arrays h ++ [filter p a];
       Store.writes := Store.writes h |}.
Proof.
  intros H. unfold Store.filter, Store.bind, Store.contents, Store.alloc.
  now rewrite H.
Qed.


Lemma bind_spread h l a {B} (k : Store.loc -> Store.M B) :
  nth_error (Store.arrays h) l = Some a ->
  Store.bind (Store.spread l) k h =
  k (length (Store.arrays h))
    {| Store.arrays := Store.arrays h ++ [a];
       Store.writes := Store.writes h |}.
Proof.
  intros H. unfold Store.spread, Store.bind, Store.contents, Store.alloc.
  now rewrite H.
Qed.

Lemma bind_sort h l a cmp {B} (k : Store.loc -> Store.M B) :
  nth_error (Store.arrays h) l = Some a ->
  Store.bind (Store.sort l cmp) k h =
  k l {| Store.arrays := Store.update (Store.arrays h) l (Array_sort cmp a);
         Store.writes := Store.writes h ++ [l] |}.
Proof.
  intros H.
  unfold Store.sort, Store.bind, Store.contents, Store.store, Store.ret.
  now rewrite H.
Qed.

Lemma bind_assoc {A B C} (m : Store.M A) (f : A -> Store.M B)
    (k : B -> Store.M C) h :
  Store.bind (Store.bind m f) k h
  = Store.bind m (fun a => Store.bind (f a) k) h.
Proof. unfold Store.bind. now destruct (m h) as [[a h'] |]. Qed.

Ltac lookup :=
  cbn [Store.arrays Store.writes]; eauto using lookup_old, lookup_new.

Ltac run :=
  repeat first
    [ rewrite bind_assoc
    | erewrite bind_filter by lookup
    | erewrite bind_length by lookup
    | erewrite bind_get by lookup ];
  cbn [Store.arrays Store.writes].

Ltac allocated :=
  split; cbn [Store.arrays Store.writes];
  [ eexists; rewrite <- ?app_assoc; reflexivity | reflexivity ].

Lemma refines_lastIntervalOf h l s :
  nth_error (Store.arrays h) l = Some s ->
  Store.refines (Store.lastIntervalOf l) h (lastIntervalOf s).
Proof.
  intros H. exists h. split; [apply extends_refl |].
  unfold Store.lastIntervalOf, lastIntervalOf. run.
  destruct (at_ s (len s - 1)); [| reflexivity]. cbn [bind]. run.
  destruct (at_ s (len s - 2)); reflexivity.
Qed.

Lemma refines_yearStatsOf tz h l s now :
  nth_error (Store.arrays h) l = Some s ->
  Store.refines (Store.yearStatsOf tz l now) h (yearStatsOf tz s now).
Proof.
  intros H. eexists. split.
  2:{ unfold Store.yearStatsOf, yearStatsOf. run.
      destruct (len _ >=? 2); [| reflexivity]. run.
      destruct (at_ _ 0); [| reflexivity]. cbn [bind]. run.
      destruct (at_ _ _); reflexivity. }
  allocated.
Qed.

Lemma refines_monthBucket tz h l s now i :
  nth_error (Store.arrays h) l = Some s ->
  Store.refines (Store.monthBucket tz l now i) h (monthBucket tz s now i).
Proof.
  intros H. eexists. split.
  2:{ unfold Store.monthBucket, monthBucket. run.
      destruct (_ && _).
      - run. destruct (at_ _ _); [| reflexivity]. cbn [bind]. run.
        destruct (at_ _ _); reflexivity.
      - reflexivity. }
  allocated.
Qed.

Lemma refines_weekBucket h l s now i :
  nth_error (Store.arrays h) l = Some s ->
  Store.refines (Store.weekBucket l now i) h (weekBucket s now i).
Proof.
  intros H. eexists. split.
  2:{ unfold Store.weekBucket, weekBucket. run.
      destruct (_ && _).
      - run. destruct (at_ _ _); [| reflexivity]. cbn [bind]. run.
        destruct (at_ _ _); reflexivity.
      - reflexivity. }
  allocated.
Qed.

Lemma refines_bind {A B} (m : Store.M A) (k : A -> Store.M B) h v
    (kv : A -> option B) loc s :
  nth_error (Store.arrays h) loc = Some s ->
  Store.refines m h v ->
  (forall a h', nth_error (Store.arrays h') loc = Some s ->
                Store.refines (k a) h' (kv a)) ->
  Store.refines (Store.bind m k) h (bind v kv).
Proof.
  intros H (h1 & X1 & E1) Hk.
  destruct v as [a |]; cbn [bind].
  - destruct (Hk a h1 (extends_lookup _ _ _ _ X1 H)) as (h2 & X2 & E2).
    exists h2. split; [eapply extends_trans; eassumption |].
    unfold Store.bind. now rewrite E1.
  - exists h. split; [apply extends_refl |].
    unfold Store.bind. now rewrite E1.
Qed.

Lemma refines_ret {A} (a : A) h : Store.refines (Store.ret a) h (ret a).
Proof. exists h. split; [apply extends_refl | reflexivity]. Qed.

Lemma refines_mapM {A} (f : Z -> Store.M A) (g : Z -> option A) loc s l :
  (forall i h, nth_error (Store.arrays h) loc = Some s ->
               Store.refines (f i) h (g i)) ->
  forall h, nth_error (Store.arrays h) loc = Some s ->
            Store.refines (Store.mapM f l) h (mapM g l).
Proof.
  intros Hf. induction l as [| i l IH]; intros h H; cbn [Store.mapM mapM].
  - apply refines_ret.
  - eapply refines_bind; [exact H | now apply Hf |].
    intros y h1 H1. eapply refines_bind; [exact H1 | now apply IH |].
    intros ys h2 _. apply refines_ret.
Qed.

(** The stages after the sort, on a store where [loc] holds the sorted
    array. *)
Lemma refines_stages tz h loc s now :
  nth_error (Store.arrays h) loc = Some s ->
  Store.refines
    (Store.bind (Store.lastIntervalOf loc) (fun lastInterval =>
     Store.bind (Store.yearStatsOf tz loc now) (fun yearStats =>
     Store.bind (Store.mapM (Store.monthBucket tz loc now) (countdown 11))
       (fun monthlyData =>
     Store.bind (Store.mapM (Store.weekBucket loc now) (countdown 51))
       (fun weeklyData =>
     Store.ret {| lastInterval := Some lastInterval; yearStats := yearStats;
                  monthlyData := monthlyData; weeklyData := weeklyData |})))))
    h
    (lastInterval <- lastIntervalOf s ;;
     yearStats <- yearStatsOf tz s now ;;
     monthlyData <- mapM (monthBucket tz s now) (countdown 11) ;;
     weeklyData <- mapM (weekBucket s now) (countdown 51) ;;
     ret {| lastInterval := Some lastInterval; yearStats := yearStats;
            monthlyData := monthlyData; weeklyData := weeklyData |}).
Proof.
  intros H.
  eapply refines_bind; [exact H | now apply refines_lastIntervalOf |].
  intros li h1 H1.
  eapply refines_bind; [exact H1 | now apply refines_yearStatsOf |].
  intros ys h2 H2.
  eapply refines_bind; [exact H2 | |].
  { apply (refines_mapM _ _ loc s); [| exact H2].
    intros i h' H'. now apply refines_monthBucket. }
  intros md h3 H3.
  eapply refines_bind; [exact H3 | |].
  { apply (refines_mapM _ _ loc s); [| exact H3].
    intros i h' H'. now apply refines_weekBucket. }
  intros wd h4 _. apply refines_ret.
Qed.

(** ** The latest reading, characterised *)

Lemma latest_from_none_inv p l : forall i k r,
  latest_from p l i = None -> nth_error l k = Some r -> p r = false.
Proof.
  induction l as [| y l IH]; intros i k r E Hn; [now destruct k |].
  simpl in E. destruct (latest_from p l (S i)) eqn:E'; [discriminate |].
  destruct (p y) eqn:Hy; [discriminate |].
  destruct k as [| k]; simpl in Hn; [congruence | eauto].
Qed.

Lemma latest_from_spec p l : forall i j r,
  latest_from p l i = Some (j, r) ->
  (i <= j)%nat /\ nth_error l (j - i) = Some r /\ p r = true /\
  forall k r', (j - i < k)%nat -> nth_error l k = Some r' -> p r' = false.
Proof.
  induction l as [| x l IH]; intros i j r H; simpl in H; [discriminate |].
  destruct (latest_from p l (S i)) as [[j' r'] |] eqn:E.
  - injection H as -> ->.
    destruct (IH _ _ _ E) as (Hle & Hn & Hp & Hlater).
    repeat split; try assumption; try lia.
    + replace (j - i)%nat with (S (j - S i)) by lia. exact Hn.
    + intros k r' Hk. destruct k as [| k]; [lia |]. simpl.
      apply Hlater. lia.
  - destruct (p x) eqn:Hx; [| discriminate].
    assert (Hj : j = i) by congruence. assert (Hr : r = x) by congruence.
    subst j r. rewrite Nat.sub_diag. repeat split; try assumption; try lia.
    intros k r' Hk Hn. destruct k as [| k]; [lia |]. simpl in Hn.
    eapply latest_from_none_inv; eassumption.
Qed.

(** [latest p l] is the last position of [l] whose reading [p] accepts. *)
Lemma latest_spec p l j r :
  latest p l = Some (j, r) ->
  nth_error l j = Some r /\ p r = true /\
  forall k r', (j < k)%nat -> nth_error l k = Some r' -> p r' = false.
Proof.
  intros H. destruct (latest_from_spec p l 0%nat j r H) as (_ & Hn & Hp & Hl).
  rewrite Nat.sub_0_r in *. auto.
Qed.

Lemma beforeOf_le w tz now s i :
  beforeOf w tz now s i =
  latest (fun r => date r <=?
            match w with
            | Monthly => monthDate tz now i - 1
            | Weekly => weekStart now i
            end) s.
Proof.
  destruct w; [| reflexivity]. unfold beforeOf, latest.
  apply latest_from_ext. intros r.
  destruct (Z.ltb_spec (date r) (monthDate tz now i)),
    (Z.leb_spec (date r) (monthDate tz now i - 1)); try reflexivity; lia.
Qed.

Lemma rates_bracket w tz rs now :
  (2 <= length rs)%nat ->
  exists st, calculateStats tz rs now = Some st /\
    rates w st =
    map (fun i => bracketRate (beforeOf w tz now (Array_sort byDate rs) i)
                              (throughOf w tz now (Array_sort byDate rs) i))
        (indices w).
Proof.
  intros H. destruct (calculateStats_two tz rs now H) as (? & ? & ? & _ & E).
  eexists. split; [exact E |].
  destruct w; unfold rates, indices, beforeOf, throughOf, bucketEnd;
    cbn [monthlyData weeklyData]; rewrite map_map;
    cbn [m_litersPerDay w_litersPerDay]; reflexivity.
Qed.

(** * The claims *)

(** C1 (as amended): for every bucket of the monthly and of the weekly
    series, the [through] endpoint is the latest reading with timestamp
    at or before the bucket's end; the [before] endpoint is the latest
    reading with timestamp at or before the bucket's start for a week,
    and strictly before it for a month; the bucket is given a rate, the
    one across these two readings, exactly when [before] exists and
    [through] is a strictly later reading in the sort order. *)
Theorem bucket_endpoints tz rs now :
  (2 <= length rs)%nat ->
  let sorted := Array_sort byDate rs in
  exists st, calculateStats tz rs now = Some st /\
    map m_litersPerDay (monthlyData st) =
    map (fun i =>
           bracketRate
             (latest (fun r => date r <? monthDate tz now i) sorted)
             (latest (fun r => date r <=? monthEnd tz now i) sorted))
        (countdown 11) /\
    map w_litersPerDay (weeklyData st) =
    map (fun i =>
           bracketRate
             (latest (fun r => date r <=? weekStart now i) sorted)
             (latest (fun r => date r <=? weekEnd now i) sorted))
        (countdown 51).
Proof.
  intros H sorted.
  destruct (calculateStats_two tz rs now H) as (? & ? & ? & _ & E).
  eexists. split; [exact E |]. cbn [monthlyData weeklyData].
  rewrite !map_map. split; reflexivity.
Qed.

Lemma bucket_endpoints_witness :
  let rs := [reading (isoDate 2024 2 1) 103; reading (isoDate 2024 1 1) 100] in
  (2 <= length rs)%nat /\
  exists st, calculateStats 0 rs (isoDate 2024 6 1) = Some st /\
    length (monthlyData st) = 12%nat /\ length (weeklyData st) = 52%nat.
Proof.
  intros rs. split; [simpl; lia |].
  destruct (bucket_endpoints 0 rs (isoDate 2024 6 1)) as (st & E & Hm & Hw);
    [simpl; lia |].
  exists st. split; [exact E |].
  apply (f_equal (@length _)) in Hm, Hw.
  rewrite !length_map in Hm, Hw. split; assumption.
Defined.

(** C1 fails as stated: a reading taken at the very start of December
    belongs to the December bucket, so the month is given a rate, while
    the latest reading at or before the start and the latest at or
    before the end are the same reading. *)
Lemma month_start_reading_is_inside :
  let rs := [reading (isoDate 2024 11 15) 10; reading (isoDate 2024 12 1) 11] in
  let now := isoDate 2024 12 15 in
  let sorted := Array_sort byDate rs in
  exists st rate,
    calculateStats 0 rs now = Some st /\
    monthDate 0 now 0 = isoDate 2024 12 1 /\
    nth_error (map m_litersPerDay (monthlyData st)) 11 = Some (Some rate) /\
    bracketRate (beforeAtOrBefore Monthly 0 now sorted 0)
                (throughOf Monthly 0 now sorted 0) = None.
Proof.
  intros rs now sorted.
  destruct (calculateStats 0 rs now) as [st |] eqn:E; [| vm_compute in E; discriminate].
  exists st. vm_compute in E. injection E as <-.
  eexists. repeat split; vm_compute; reflexivity.
Qed.

(** C2 (as amended): for every input with 0 or 1 readings, [lastInterval]
    and [yearStats] are unavailable and both series are empty. *)
Theorem few_readings_no_stats tz rs now :
  (length rs < 2)%nat ->
  calculateStats tz rs now =
  Some {| lastInterval := None; yearStats := None;
          monthlyData := []; weeklyData := [] |}.
Proof. apply calculateStats_few. Qed.

Lemma few_readings_no_stats_witness :
  (length [reading (isoDate 2024 6 1) 100] < 2)%nat /\
  calculateStats 0 [reading (isoDate 2024 6 1) 100] (isoDate 2024 6 2) =
  Some {| lastInterval := None; yearStats := None;
          monthlyData := []; weeklyData := [] |}.
Proof.
  split; [simpl; lia |].
  apply (few_readings_no_stats 0 _ (isoDate 2024 6 2)). simpl; lia.
Defined.

(** C2 fails as stated: with a single reading the monthly series does
    not have 12 entries nor the weekly series 52. *)
Lemma single_reading_series_are_empty :
  exists st,
    calculateStats 0 [reading (isoDate 2024 6 1) 100] (isoDate 2024 6 2)
    = Some st /\
    length (monthlyData st) <> 12%nat /\ length (weeklyData st) <> 52%nat.
Proof.
  eexists. split; [reflexivity |]. split; discriminate.
Qed.

(** C3 (as amended): for the readings (2024-01-01, 0) and
    (2024-12-31, 365) with now = 2025-01-01, the monthly series runs from
    February 2024 to January 2025; the December 2024 bucket, which holds
    the second reading, shows 1000.0 litres per day, and every other
    bucket shows no data. *)
Theorem year_span_scenario :
  let rs := [reading (isoDate 2024 1 1) 0; reading (isoDate 2024 12 31) 365] in
  exists st,
    calculateStats 0 rs (isoDate 2025 1 1) = Some st /\
    map m_month (monthlyData st) =
      [isoDate 2024 2 1; isoDate 2024 3 1; isoDate 2024 4 1; isoDate 2024 5 1;
       isoDate 2024 6 1; isoDate 2024 7 1; isoDate 2024 8 1; isoDate 2024 9 1;
       isoDate 2024 10 1; isoDate 2024 11 1; isoDate 2024 12 1;
       isoDate 2025 1 1] /\
    Forall2 sameRate (map m_litersPerDay (monthlyData st))
      [None; None; None; None; None; None; None; None; None; None;
       Some 1000%Q; None].
Proof.
  intros rs.
  destruct (calculateStats 0 rs (isoDate 2025 1 1)) as [st |] eqn:E;
    [| vm_compute in E; discriminate].
  exists st. vm_compute in E. injection E as <-.
  split; [reflexivity |]. split; [vm_compute; reflexivity |].
  cbn [map monthlyData m_litersPerDay].
  repeat constructor.
Qed.

(** C3 fails as stated: in that scenario the November 2024 bucket,
    which no reading falls into, shows no data rather than the value of
    December. *)
Lemma november_shows_no_data :
  let rs := [reading (isoDate 2024 1 1) 0; reading (isoDate 2024 12 31) 365] in
  exists st e,
    calculateStats 0 rs (isoDate 2025 1 1) = Some st /\
    nth_error (monthlyData st) 9 = Some e /\
    m_month e = isoDate 2024 11 1 /\
    m_litersPerDay e = None.
Proof.
  intros rs.
  destruct (calculateStats 0 rs (isoDate 2025 1 1)) as [st |] eqn:E;
    [| vm_compute in E; discriminate].
  exists st. vm_compute in E. injection E as <-.
  eexists. repeat split; reflexivity.
Qed.

(** C4: with at least two readings, [lastInterval] is computed from the
    last two readings in timestamp order: days is their timestamp
    difference in days, liters their value difference times 1000,
    litersPerDay is liters over days when days is strictly positive and
    0 otherwise, each rounded to one decimal.  For (2024-01-01, 100.000)
    and (2024-02-01, 103.000) this gives 31.0 days, 3000.0 litres and
    96.8 litres per day. *)
Theorem last_interval :
  (forall tz rs now, (2 <= length rs)%nat ->
     exists st pre prev last,
       calculateStats tz rs now = Some st /\
       Array_sort byDate rs = pre ++ [prev; last] /\
       Permutation rs (pre ++ [prev; last]) /\
       (forall r, In r pre -> date r <= date prev) /\
       date prev <= date last /\
       let days := (inject_Z (date last - date prev) / inject_Z msPerDay)%Q in
       let liters := ((value last - value prev) * 1000)%Q in
       lastInterval st =
       Some {| li_days := round1 days;
               li_liters := round1 liters;
               li_litersPerDay :=
                 round1 (if Qgtb days 0 then liters / days else 0);
               li_startDate := date prev;
               li_endDate := date last |})
  /\
  (forall tz now,
     exists st li,
       calculateStats tz
         [reading (isoDate 2024 1 1) 100; reading (isoDate 2024 2 1) 103] now
       = Some st /\
       lastInterval st = Some li /\
       (li_days li == 31)%Q /\ (li_liters li == 3000)%Q /\
       (li_litersPerDay li == 96.8)%Q).
Proof.
  assert (G : forall tz rs now, (2 <= length rs)%nat ->
     exists st pre prev last,
       calculateStats tz rs now = Some st /\
       Array_sort byDate rs = pre ++ [prev; last] /\
       Permutation rs (pre ++ [prev; last]) /\
       (forall r, In r pre -> date r <= date prev) /\
       date prev <= date last /\
       lastInterval st = Some (lastIntervalFrom prev last)).
  { intros tz rs now H.
    destruct (calculateStats_two tz rs now H) as (pre & prev & last & Es & E).
    eexists. exists pre, prev, last. split; [exact E |].
    split; [exact Es |]. split; [rewrite <- Es; apply Array_sort_perm |].
    pose proof (Array_sort_sorted rs) as Hs. rewrite Es in Hs.
    unfold byDateSorted in Hs.
    assert (Hprev : byDateSorted (prev :: [last]) /\
                    forall r, In r pre -> date r <= date prev).
    { clear - Hs. induction pre as [| x pre IH]; simpl in Hs.
      - split; [exact Hs | intros r []].
      - inversion Hs as [| ? ? Hs' Hx]; subst.
        destruct (IH Hs') as [H1 H2]. split; [exact H1 |].
        intros r [<- | Hr]; [| now apply H2].
        rewrite Forall_forall in Hx. apply Hx.
        apply in_or_app. right. now left. }
    destruct Hprev as [Hpl Hpre]. split; [exact Hpre |].
    split; [| reflexivity].
    inversion Hpl as [| ? ? _ Hf]; subst. now inversion Hf. }
  split.
  - intros tz rs now H.
    destruct (G tz rs now H) as (st & pre & prev & last & E & Es & P & H1 & H2 & Hl).
    exists st, pre, prev, last. repeat (split; [assumption |]). exact Hl.
  - intros tz now.
    destruct (G tz [reading (isoDate 2024 1 1) 100; reading (isoDate 2024 2 1) 103]
                now) as (st & pre & prev & last & E & Es & _ & _ & _ & Hl);
      [simpl; lia |].
    change (Array_sort byDate
              [reading (isoDate 2024 1 1) 100; reading (isoDate 2024 2 1) 103])
      with ([] ++ [reading (isoDate 2024 1 1) 100;
                   reading (isoDate 2024 2 1) 103]) in Es.
    assert (Hpre : pre = []).
    { apply (f_equal (@length _)) in Es. rewrite !length_app in Es.
      simpl in Es. destruct pre; [reflexivity | simpl in Es; lia]. }
    subst pre. injection Es as <- <-.
    exists st. eexists. split; [exact E |]. split; [exact Hl |].
    repeat split; vm_compute; reflexivity.
Qed.




Lemma nth_error_map_inv {A B} (f : A -> B) l k i e :
  nth_error l k = Some i -> nth_error (map f l) k = Some e -> e = f i.
Proof.
  intros Hi He. rewrite nth_error_map, Hi in He. simpl in He. congruence.
Qed.

(** On a sorted array a bucket's rate always comes from two readings
    strictly apart in time. *)
Lemma bracket_strict w tz now s i q :
  byDateSorted s ->
  bracketRate (beforeOf w tz now s i) (throughOf w tz now s i) = Some q ->
  exists b t,
    beforeOf w tz now s i = Some b /\ throughOf w tz now s i = Some t /\
    date (snd b) < date (snd t) /\ q = rateBetween (snd b) (snd t).
Proof.
  intros Hs. rewrite beforeOf_le. unfold throughOf.
  set (a := match w with
            | Monthly => monthDate tz now i - 1
            | Weekly => weekStart now i
            end).
  destruct (bracket_cases a (bucketEnd w tz now i) s Hs)
    as [[_ Hr] | [_ (j & x & k & y & _ & _ & Hb & Ht & Hlt & Hxa & Hay & _)]].
  - rewrite Hr. discriminate.
  - rewrite Hb, Ht. simpl. apply Nat.ltb_lt in Hlt. rewrite Hlt.
    intros [= <-]. exists (j, x), (k, y). simpl. repeat split. lia.
Qed.

(** C6 (as amended): the function never throws; when the two readings of
    the last interval, or the first and last reading of the year, have no
    positive elapsed time, the rate is 0; a bucket is given a rate only
    across two readings strictly apart in time, and a bucket whose
    [before] and [through] endpoints have no positive elapsed time shows
    no data, not 0. *)
Theorem zero_elapsed_time tz rs now :
  let sorted := Array_sort byDate rs in
  exists st, calculateStats tz rs now = Some st /\
    (forall li, lastInterval st = Some li ->
       li_endDate li <= li_startDate li -> (li_litersPerDay li == 0)%Q) /\
    (forall ys first mid last,
       yearStats st = Some ys ->
       filter (fun r => date r >=? startOfYear tz now) sorted
       = first :: mid ++ [last] ->
       date last <= date first -> ys_avgLitersPerDay ys = 0%Q) /\
    (forall w k i e,
       nth_error (indices w) k = Some i ->
       nth_error (rates w st) k = Some e ->
       (forall q, e = Some q ->
          exists b t,
            beforeOf w tz now sorted i = Some b /\
            throughOf w tz now sorted i = Some t /\
            date (snd b) < date (snd t) /\
            q = rateBetween (snd b) (snd t)) /\
       (forall b t,
          beforeOf w tz now sorted i = Some b ->
          throughOf w tz now sorted i = Some t ->
          date (snd t) <= date (snd b) -> e = None)).
Proof.
  intros sorted.
  destruct (Nat.lt_ge_cases (length rs) 2) as [H | H].
  { exists noStats. split; [now apply calculateStats_few |].
    repeat split; try discriminate.
    - intros q ->. destruct w, k; discriminate.
    - destruct w, k; discriminate. }
  destruct (calculateStats_two tz rs now H) as (pre & prev & last & _ & E).
  destruct (rates_bracket Monthly tz rs now H) as (st & E' & Hm).
  destruct (rates_bracket Weekly tz rs now H) as (st' & E'' & Hw).
  assert (st' = st) by congruence. subst st'. clear E''.
  exists st. split; [exact E' |].
  rewrite E in E'. injection E' as E'.
  assert (Hs : byDateSorted sorted) by apply Array_sort_sorted.
  split; [| split].
  - rewrite <- E'. cbn [lastInterval]. intros li [= <-].
    cbn [lastIntervalFrom li_endDate li_startDate li_litersPerDay].
    intros Hd. rewrite daysBetween_nonpos by exact Hd. reflexivity.
  - rewrite <- E'. cbn [yearStats]. fold sorted.
    intros ys first mid lst Hys Hq Hd. rewrite Hq in Hys.
    rewrite (proj2 (ends_inv _ first lst)) in Hys by eauto.
    cbn [option_map fst snd] in Hys. injection Hys as <-.
    cbn [yearStatsFrom ys_avgLitersPerDay].
    now rewrite daysBetween_nonpos by exact Hd.
  - intros w k i e Hi He.
    assert (Ee : e = bracketRate (beforeOf w tz now sorted i)
                                 (throughOf w tz now sorted i)).
    { destruct w; [rewrite Hm in He | rewrite Hw in He];
        exact (nth_error_map_inv _ _ _ _ _ Hi He). }
    split.
    + intros q Hq. apply bracket_strict; [exact Hs | congruence].
    + intros b t Hb Ht Hd.
      destruct e as [q |]; [| reflexivity]. exfalso.
      destruct (bracket_strict w tz now sorted i q Hs (eq_sym Ee))
        as (b' & t' & Hb' & Ht' & Hlt & _).
      rewrite Hb in Hb'. rewrite Ht in Ht'.
      injection Hb' as <-. injection Ht' as <-. lia.
Qed.

(** C6 fails as stated: in the newest weekly bucket below, the [before]
    and the [through] endpoint are the same reading, so they share a
    timestamp, and the bucket shows no data instead of the rate 0. *)
Lemma coinciding_endpoints_show_no_data :
  let rs := [reading (isoDate 2024 1 1) 100; reading (isoDate 2024 2 1) 103] in
  let now := isoDate 2024 6 1 in
  let sorted := Array_sort byDate rs in
  exists st b t,
    calculateStats 0 rs now = Some st /\
    beforeOf Weekly 0 now sorted 0 = Some b /\
    throughOf Weekly 0 now sorted 0 = Some t /\
    date (snd b) = date (snd t) /\
    nth_error (rates Weekly st) 51 = Some None /\
    ~ sameRate None (Some 0%Q).
Proof.
  intros rs now sorted.
  destruct (calculateStats 0 rs now) as [st |] eqn:E;
    [| vm_compute in E; discriminate].
  exists st. vm_compute in E. injection E as <-.
  do 2 eexists. split; [reflexivity |].
  split; [vm_compute; reflexivity |]. split; [vm_compute; reflexivity |].
  split; [reflexivity |]. split; [reflexivity |]. intros [].
Qed.

(** Readings that share a timestamp do give a last-interval rate of 0. *)
Example shared_timestamp_rate :
  exists st li,
    calculateStats 0 [reading 5 10; reading 5 20] 0 = Some st /\
    lastInterval st = Some li /\ (li_litersPerDay li == 0)%Q /\
    (li_liters li == 10000)%Q.
Proof.
  destruct (calculateStats 0 [reading 5 10; reading 5 20] 0) as [st |] eqn:E;
    [| vm_compute in E; discriminate].
  exists st. vm_compute in E. injection E as <-.
  eexists. repeat split; reflexivity.
Qed.

(** C7 (as amended): for every input list in which readings that share
    a timestamp also share the stored date and the value (in particular
    when the timestamps are pairwise distinct), every permutation of the
    list gives the same statistics for the same [now]. *)
Theorem permutation_invariance tz l1 l2 now :
  Permutation l1 l2 ->
  (forall a b, In a l1 -> In b l1 -> time (date a) = time (date b) ->
               sameData a b) ->
  calculateStats tz l1 now = calculateStats tz l2 now.
Proof.
  intros P Hv.
  rewrite <- (calculateStats_strip tz l1), <- (calculateStats_strip tz l2).
  apply calculateStats_sorted_eq.
  - rewrite !length_map. now apply Permutation_length.
  - apply sorted_perm_unique; try apply Array_sort_sorted.
    + rewrite <- !Array_sort_perm. now apply Permutation_map.
    + intros a b Ha Hb Hd.
      apply (Permutation_in _ (Permutation_sym (Array_sort_perm byDate _)))
        in Ha, Hb.
      apply in_map_iff in Ha, Hb.
      destruct Ha as (a0 & <- & Ha), Hb as (b0 & <- & Hb).
      apply sameData_strip. now apply Hv.
Qed.

Lemma permutation_invariance_witness :
  let l1 := [reading (isoDate 2024 2 1) 103; reading (isoDate 2024 1 1) 100;
             reading (isoDate 2024 3 1) 105] in
  let l2 := [reading (isoDate 2024 3 1) 105; reading (isoDate 2024 2 1) 103;
             reading (isoDate 2024 1 1) 100] in
  Permutation l1 l2 /\
  calculateStats 0 l1 (isoDate 2024 6 1) = calculateStats 0 l2 (isoDate 2024 6 1).
Proof.
  intros l1 l2.
  assert (P : Permutation l1 l2).
  { unfold l1, l2.
    apply (Permutation_cons_app [reading (isoDate 2024 3 1) 105]
             [reading (isoDate 2024 1 1) 100]).
    apply perm_swap. }
  split; [exact P |].
  apply (permutation_invariance 0 l1 l2 (isoDate 2024 6 1) P).
  intros a b Ha Hb Hd. unfold l1 in Ha, Hb. simpl in Ha, Hb.
  destruct Ha as [<- | [<- | [<- | []]]], Hb as [<- | [<- | [<- | []]]];
    try (split; reflexivity); vm_compute in Hd; discriminate.
Defined.

(** C7 fails as stated: two readings with the same timestamp and
    different values give opposite consumptions in the two orders. *)
Lemma tie_order_changes_result :
  let l1 := [reading 5 10; reading 5 20] in
  let l2 := [reading 5 20; reading 5 10] in
  Permutation l1 l2 /\
  exists st1 st2 li1 li2,
    calculateStats 0 l1 0 = Some st1 /\ calculateStats 0 l2 0 = Some st2 /\
    lastInterval st1 = Some li1 /\ lastInterval st2 = Some li2 /\
    (li_liters li1 == 10000)%Q /\ (li_liters li2 == -10000)%Q /\
    calculateStats 0 l1 0 <> calculateStats 0 l2 0.
Proof.
  intros l1 l2. split; [apply perm_swap |].
  destruct (calculateStats 0 l1 0) as [st1 |] eqn:E1;
    [| vm_compute in E1; discriminate].
  destruct (calculateStats 0 l2 0) as [st2 |] eqn:E2;
    [| vm_compute in E2; discriminate].
  exists st1, st2. vm_compute in E1, E2.
  injection E1 as <-. injection E2 as <-.
  do 2 eexists. repeat split; try reflexivity. discriminate.
Qed.

(** The stored date matters as well: two readings of one instant and one
    value whose dates are stored as different texts come back as
    [startDate] and [endDate] in the order of the input. *)
Example date_text_order_changes_result :
  let a := {| id := EmptyString; date := dateOnly 2024 3 1; value := 100;
              confidence := None; notes := None; image := None |} in
  let b := reading (isoDate 2024 3 1) 100 in
  stored (date a) = JString "2024-03-01" /\
  stored (date b) = JString "2024-03-01T00:00:00.000Z" /\
  time (date a) = time (date b) /\ value a = value b /\
  exists st1 st2 li1 li2,
    calculateStats 0 [a; b] (isoDate 2024 6 1) = Some st1 /\
    calculateStats 0 [b; a] (isoDate 2024 6 1) = Some st2 /\
    lastInterval st1 = Some li1 /\ lastInterval st2 = Some li2 /\
    li_startDate li1 = date a /\ li_endDate li1 = date b /\
    li_startDate li2 = date b /\ li_endDate li2 = date a /\
    st1 <> st2.
Proof.
  intros a b.
  split; [vm_compute; reflexivity |]. split; [vm_compute; reflexivity |].
  split; [reflexivity |]. split; [reflexivity |].
  destruct (calculateStats 0 [a; b] (isoDate 2024 6 1)) as [st1 |] eqn:E1;
    [| vm_compute in E1; discriminate].
  destruct (calculateStats 0 [b; a] (isoDate 2024 6 1)) as [st2 |] eqn:E2;
    [| vm_compute in E2; discriminate].
  exists st1, st2. vm_compute in E1, E2.
  injection E1 as <-. injection E2 as <-.
  do 2 eexists. repeat split; try (vm_compute; reflexivity). discriminate.
Qed.

Lemma filter_length_lt {A} (p q : A -> bool) l :
  (forall x, p x = true -> q x = true) ->
  (exists x, In x l /\ q x = true /\ p x = false) ->
  (length (filter p l) < length (filter q l))%nat.
Proof.
  intros Hpq.
  assert (Hle : forall l, (length (filter p l) <= length (filter q l))%nat).
  { induction l0 as [| y l0 IH]; simpl; [lia |].
    destruct (p y) eqn:Hp; [rewrite (Hpq y Hp); simpl; lia |].
    destruct (q y); simpl; lia. }
  induction l as [| y l IH]; intros (x & Hin & Hq & Hp); [destruct Hin |].
  simpl. destruct Hin as [-> | Hin].
  - rewrite Hp, Hq. simpl. specialize (Hle l). lia.
  - assert (IH' : (length (filter p l) < length (filter q l))%nat) by eauto.
    destruct (p y) eqn:Hpy; [rewrite (Hpq y Hpy); simpl; lia |].
    destruct (q y); simpl; lia.
Qed.

(** On a sorted array the bracketing rule gives a rate as soon as one
    reading lies at or before [a] and one after [a], at or before [b]. *)
Lemma bracket_defined_at a b s r r' :
  byDateSorted s ->
  In r s -> In r' s -> date r <= a -> a < date r' <= b ->
  bracketRate (latest (fun r => date r <=? a) s)
              (latest (fun r => date r <=? b) s) <> None.
Proof.
  intros Hs Hr Hr' Ha Hab.
  destruct (bracket_cases a b s Hs)
    as [[Hc _] | [_ (j & x & k & y & _ & _ & Hb & Ht & Hlt & _)]].
  - exfalso. apply andb_false_iff in Hc.
    assert (HP : In r (filter (fun r => date r <=? a) s))
      by (apply filter_In; split; [exact Hr | now apply Z.leb_le]).
    assert (HQ : (length (filter (fun r => (date r <=? a)%Z) s)
                  < length (filter (fun r => (date r <=? b)%Z) s))%nat).
    { apply filter_length_lt.
      - intros x Hx. apply Z.leb_le in Hx. apply Z.leb_le. lia.
      - exists r'. split; [exact Hr' |]. split.
        + apply Z.leb_le. lia.
        + apply Z.leb_gt. lia. }
    unfold len in Hc. rewrite !Z.gtb_ltb, !Z.ltb_ge in Hc.
    destruct (filter (fun r => date r <=? a) s) as [| x P]; [destruct HP |].
    cbn [length] in Hc, HQ. lia.
  - rewrite Hb, Ht. cbn [bracketRate]. apply Nat.ltb_lt in Hlt.
    rewrite Hlt. discriminate.
Qed.

Lemma bucketStart_Monthly tz now i :
  bucketStart Monthly tz now i = monthDate tz now i.
Proof. reflexivity. Qed.

Lemma bucketStart_Weekly tz now i :
  bucketStart Weekly tz now i = weekStart now i.
Proof. reflexivity. Qed.

Lemma inBucket_Monthly tz now i t :
  inBucket Monthly tz now i t ->
  monthDate tz now i <= t <= bucketEnd Monthly tz now i.
Proof. intros H. exact H. Qed.

Lemma inBucket_Weekly tz now i t :
  inBucket Weekly tz now i t ->
  weekStart now i < t <= bucketEnd Weekly tz now i.
Proof. intros H. exact H. Qed.

(** A bucket is defined as soon as one reading lies before its start
    and one inside it. *)
Lemma bracket_defined w tz now s i :
  byDateSorted s ->
  (exists r, In r s /\ date r < bucketStart w tz now i) ->
  (exists r, In r s /\ inBucket w tz now i (date r)) ->
  bracketRate (beforeOf w tz now s i) (throughOf w tz now s i) <> None.
Proof.
  intros Hs (r & Hr & Hbefore) (r' & Hr' & Hin).
  rewrite beforeOf_le. unfold throughOf.
  destruct w.
  - rewrite bucketStart_Monthly in Hbefore. apply inBucket_Monthly in Hin.
    apply (bracket_defined_at _ _ s r r' Hs Hr Hr'); lia.
  - rewrite bucketStart_Weekly in Hbefore. apply inBucket_Weekly in Hin.
    apply (bracket_defined_at _ _ s r r' Hs Hr Hr'); lia.
Qed.

Lemma two_distinct {A} (l : list A) a b :
  In a l -> In b l -> a <> b -> (2 <= length l)%nat.
Proof.
  intros Ha Hb Hne. destruct l as [| x [| y l]]; simpl in *; [tauto | | lia].
  destruct Ha as [<- | []], Hb as [<- | []]. now elim Hne.
Qed.

Lemma countdown_nonempty n : exists i l, countdown n = i :: l.
Proof. destruct n; simpl; eauto. Qed.

(** C8 (as amended): in either windowed series, if some reading's
    timestamp is before every bucket's start and every bucket holds a
    reading's timestamp (from its start on for a month, after its start
    for a week, and at or before its end), then every bucket of that
    series has a defined value. *)
Theorem coverage w tz rs now :
  (exists r, In r rs /\
     forall i, In i (indices w) -> date r < bucketStart w tz now i) ->
  (forall i, In i (indices w) ->
     exists r, In r rs /\ inBucket w tz now i (date r)) ->
  exists st, calculateStats tz rs now = Some st /\
    length (rates w st) = length (indices w) /\
    forall e, In e (rates w st) -> e <> None.
Proof.
  intros (r & Hr & Hbefore) Hinside.
  assert (H2 : (2 <= length rs)%nat).
  { assert (Hi : exists i, In i (indices w)).
    { destruct w; cbn [indices];
        [destruct (countdown_nonempty 11) as (i & l & E)
        | destruct (countdown_nonempty 51) as (i & l & E)];
        exists i; rewrite E; now left. }
    destruct Hi as [i Hi]. destruct (Hinside i Hi) as (r' & Hr' & Hin).
    apply (two_distinct rs r r' Hr Hr'). intros ->.
    specialize (Hbefore i Hi).
    destruct w;
      [ rewrite bucketStart_Monthly in Hbefore; apply inBucket_Monthly in Hin
      | rewrite bucketStart_Weekly in Hbefore; apply inBucket_Weekly in Hin ];
      lia. }
  destruct (rates_bracket w tz rs now H2) as (st & E & Hrates).
  exists st. split; [exact E |]. rewrite Hrates, length_map.
  split; [reflexivity |].
  intros e He. apply in_map_iff in He. destruct He as (i & <- & Hi).
  apply bracket_defined.
  - apply Array_sort_sorted.
  - exists r. split; [| now apply Hbefore].
    apply (Permutation_in r (Array_sort_perm byDate rs) Hr).
  - destruct (Hinside i Hi) as (r' & Hr' & Hin). exists r'. split; [| exact Hin].
    apply (Permutation_in r' (Array_sort_perm byDate rs) Hr').
Qed.

Lemma coverage_witness :
  let now := isoDate 2024 6 15 in
  exists st,
    calculateStats 0 (oneReadingPerMonth now) now = Some st /\
    length (rates Monthly st) = 12%nat /\
    forall e, In e (rates Monthly st) -> e <> None.
Proof.
  intros now.
  apply (coverage Monthly 0 (oneReadingPerMonth now) now).
  - exists (reading (isoDate 2020 1 1) 0). split; [now left |].
    intros i Hi. vm_compute in Hi.
    repeat (destruct Hi as [<- | Hi]; [vm_compute; reflexivity |]).
    destruct Hi.
  - intros i Hi.
    exists (reading (monthDate 0 now i) (inject_Z (100 - i))). split.
    + right. apply (in_map (fun i => reading (monthDate 0 now i)
                                       (inject_Z (100 - i)))). exact Hi.
    + vm_compute in Hi.
      repeat (destruct Hi as [<- | Hi]; [vm_compute; split; discriminate |]).
      destruct Hi.
Defined.

(** C8 fails as stated: both readings below lie before every bucket's
    start, hence also at or before every bucket's end, in the monthly
    and in the weekly window, and yet every bucket of both series shows
    no data. *)
Lemma early_readings_leave_buckets_empty :
  let r1 := reading (isoDate 2020 1 1) 0 in
  let r2 := reading (isoDate 2020 2 1) 5 in
  let now := isoDate 2024 6 1 in
  exists st,
    calculateStats 0 [r1; r2] now = Some st /\
    forallb (fun i => (date r1 <? monthDate 0 now i)
                      && (date r2 <=? monthEnd 0 now i)) (countdown 11)
    = true /\
    forallb (fun i => (date r1 <? weekStart now i)
                      && (date r2 <=? weekEnd now i)) (countdown 51)
    = true /\
    rates Monthly st = repeat None 12 /\
    rates Weekly st = repeat None 52.
Proof.
  intros r1 r2 now.
  destruct (calculateStats 0 [r1; r2] now) as [st |] eqn:E;
    [| vm_compute in E; discriminate].
  exists st. vm_compute in E. injection E as <-.
  split; [reflexivity |]. repeat split; vm_compute; reflexivity.
Qed.

(** C9: computing the statistics leaves the caller's array as it was,
    and every other array of the store too.  With fewer than two
    readings the store is untouched; otherwise the only array ever
    written is the fresh copy, written once, by the sort, and at the
    end it still holds the readings sorted ascending by timestamp, a
    permutation of the input in which readings of equal timestamp keep
    their order.  The result is the one computed on the elements. *)
Theorem input_array_unchanged tz h l rs now :
  nth_error (Store.arrays h) l = Some rs ->
  exists st h',
    Store.calculateStats tz l now h = Some (st, h') /\
    calculateStats tz rs now = Some st /\
    nth_error (Store.arrays h') l = Some rs /\
    (forall l' a, nth_error (Store.arrays h) l' = Some a ->
                  nth_error (Store.arrays h') l' = Some a) /\
    ((length rs < 2)%nat -> h' = h) /\
    ((2 <= length rs)%nat ->
       Store.writes h' = Store.writes h ++ [length (Store.arrays h)] /\
       nth_error (Store.arrays h') (length (Store.arrays h))
       = Some (Array_sort byDate rs)) /\
    Permutation rs (Array_sort byDate rs) /\
    byDateSorted (Array_sort byDate rs) /\
    (forall t, filter (fun r => date r =? t) (Array_sort byDate rs)
               = filter (fun r => date r =? t) rs).
Proof.
  intros H.
  assert (Hsort : Permutation rs (Array_sort byDate rs) /\
                  byDateSorted (Array_sort byDate rs) /\
                  (forall t, filter (fun r => date r =? t) (Array_sort byDate rs)
                             = filter (fun r => date r =? t) rs)).
  { split; [apply Array_sort_perm |]. split; [apply Array_sort_sorted |].
    intros t. apply Array_sort_stable. }
  destruct (calculateStats_total tz rs now) as [st E].
  unfold Store.calculateStats. rewrite (bind_length h l rs) by exact H.
  unfold calculateStats in E.
  destruct (Z.ltb_spec (len rs) 2) as [Hlt | Hge]; unfold len in *.
  - injection E as <-. exists noStats, h.
    split; [reflexivity |]. split; [apply calculateStats_few; lia |].
    split; [exact H |]. split; [auto |]. split; [reflexivity |].
    split; [lia | exact Hsort].
  - rewrite (bind_spread h l rs) by exact H.
    erewrite bind_sort by (cbn [Store.arrays]; apply lookup_new).
    cbn [Store.arrays Store.writes]. rewrite update_new.
    set (h2 := {| Store.arrays := Store.arrays h ++ [Array_sort byDate rs];
                  Store.writes := Store.writes h ++ [length (Store.arrays h)] |}).
    assert (H2 : nth_error (Store.arrays h2) (length (Store.arrays h))
                 = Some (Array_sort byDate rs)) by apply lookup_new.
    destruct (refines_stages tz h2 _ _ now H2) as (h' & [[ext Hext] Hw] & Hrun).
    rewrite E in Hrun. exists st, h'.
    split; [exact Hrun |].
    split.
    { unfold calculateStats, len.
      destruct (Z.ltb_spec (Z.of_nat (length rs)) 2); [lia | exact E]. }
    assert (Hold : forall l' a, nth_error (Store.arrays h) l' = Some a ->
                                nth_error (Store.arrays h') l' = Some a).
    { intros l' a Hl'. rewrite Hext. cbn [Store.arrays h2].
      now apply lookup_old, lookup_old. }
    split; [now apply Hold |]. split; [exact Hold |].
    split; [lia |]. split; [| exact Hsort].
    intros _. split; [exact Hw |].
    rewrite Hext. now apply lookup_old.
Qed.

Lemma input_array_unchanged_witness :
  let rs := [reading (isoDate 2024 2 1) 103; reading (isoDate 2024 1 1) 100] in
  let h := {| Store.arrays := [rs]; Store.writes := [] |} in
  exists st h',
    Store.calculateStats 0 0%nat (isoDate 2024 6 1) h = Some (st, h') /\
    nth_error (Store.arrays h') 0 = Some rs /\
    Store.writes h' = [1%nat] /\
    nth_error (Store.arrays h') 1
    = Some [reading (isoDate 2024 1 1) 100; reading (isoDate 2024 2 1) 103].
Proof.
  intros rs h.
  destruct (input_array_unchanged 0 h 0%nat rs (isoDate 2024 6 1) eq_refl)
    as (st & h' & E & _ & Hin & _ & _ & Hw & _).
  exists st, h'. split; [exact E |]. split; [exact Hin |].
  destruct Hw as [Hw Hs]; [simpl; lia |]. split; [exact Hw | exact Hs].
Defined.

(** C10: two input lists that agree, position by position, on every
    reading's date and value give the same statistics for the same
    [now], whatever their id, confidence, notes and image fields. *)
Theorem metadata_irrelevant tz l1 l2 now :
  Forall2 sameData l1 l2 ->
  calculateStats tz l1 now = calculateStats tz l2 now.
Proof.
  intros H.
  rewrite <- (calculateStats_strip tz l1), <- (calculateStats_strip tz l2).
  now rewrite (Forall2_sameData_strip l1 l2 H).
Qed.

Lemma metadata_irrelevant_witness :
  let a1 := {| id := "1704103200000"; date := dateOnly 2024 1 1; value := 100;
               confidence := Some "high"%string; notes := Some "clear"%string;
               image := Some "photo_2024-01-01_10-00-00.jpg"%string |} in
  let a2 := {| id := "1706781600000"; date := isoStamp (isoDate 2024 2 1);
               value := 103;
               confidence := Some "low"%string; notes := None;
               image := Some "photo_2024-02-01_10-00-00.jpg"%string |} in
  let b1 := {| id := "7"; date := dateOnly 2024 1 1; value := 100;
               confidence := Some "manual"%string;
               notes := Some "Manually entered"%string; image := None |} in
  let b2 := reading (isoDate 2024 2 1) 103 in
  Forall2 sameData [a1; a2] [b1; b2] /\
  calculateStats 0 [a1; a2] (isoDate 2024 6 1)
  = calculateStats 0 [b1; b2] (isoDate 2024 6 1).
Proof.
  intros a1 a2 b1 b2.
  assert (H : Forall2 sameData [a1; a2] [b1; b2])
    by (repeat constructor).
  split; [exact H |]. exact (metadata_irrelevant 0 _ _ (isoDate 2024 6 1) H).
Defined.

(** * Further properties of the code *)

(** ** The routes *)

Lemma handle_unauthenticated APP_PASSWORD tz c req srv :
  correctLogin APP_PASSWORD req = false ->
  exists resp,
    handle APP_PASSWORD tz c req false srv = (resp, false, srv) /\
    (protected req = true -> status resp = 401).
Proof.
  intros Hl. destruct req; cbn [handle requireAuth authStatus logout];
    try (eexists; split; [reflexivity | intros; try reflexivity; discriminate]).
  unfold login. destruct password;
    try (eexists; split; [reflexivity | discriminate]).
  cbn [correctLogin] in Hl. rewrite Hl.
  eexists; split; [reflexivity | discriminate].
Qed.

(** X1: a client that never logs in with the configured password can
    change nothing: whatever requests it sends, each protected route
    answers 401, the session stays unauthenticated, and the data file
    and the images directory are as before. *)
Theorem unauthenticated_client_changes_nothing APP_PASSWORD tz reqs srv :
  forallb (fun cr => negb (correctLogin APP_PASSWORD (snd cr))) reqs = true ->
  exists resps,
    serve APP_PASSWORD tz reqs false srv = (resps, false, srv) /\
    Forall2 (fun cr resp => protected (snd cr) = true -> status resp = 401)
      reqs resps.
Proof.
  induction reqs as [| [c req] reqs IH]; intros H.
  - exists []. split; [reflexivity | constructor].
  - cbn [forallb snd] in H. apply andb_true_iff in H. destruct H as [Hr Hs].
    apply negb_true_iff in Hr.
    destruct (handle_unauthenticated APP_PASSWORD tz c req srv Hr)
      as (resp & E & Hp).
    destruct (IH Hs) as (resps & Es & Hf).
    exists (resp :: resps). cbn [serve]. rewrite E, Es.
    split; [reflexivity | now constructor].
Qed.

Lemma unauthenticated_client_changes_nothing_witness :
  let srv := {| dataFile := Some [reading 5 10]; images := [] |} in
  let c := {| atStart := 7; atId := 7; atDate := 7; atStats := 7 |} in
  let reqs := [(c, PostLogin (JString "guess")); (c, GetData);
               (c, PostReadingManual (JNumber 1) None);
               (c, DeleteReading "x"); (c, PostLogout)] in
  exists resps,
    serve "wasser2024" 0 reqs false srv = (resps, false, srv) /\
    map status resps = [401; 401; 401; 401; 200].
Proof.
  intros srv c reqs.
  destruct (unauthenticated_client_changes_nothing "wasser2024" 0 reqs srv
              eq_refl) as (resps & E & _).
  exists resps. split; [exact E |].
  vm_compute in E. injection E as <-. reflexivity.
Defined.

(** X2: a manual entry whose value is not a number, or is a negative
    number, is answered with 400 and changes neither the data file nor
    the images nor the session. *)
Theorem manual_entry_rejected tz c value date session srv :
  match value with
  | JNumber v => (v < 0)%Q
  | _ => True
  end ->
  postReadingManual tz c value date session srv
  = (errorJson 400 "Invalid value", session, srv).
Proof.
  destruct value; try reflexivity. intros H. unfold postReadingManual.
  now rewrite (proj2 (Qgtb_true 0 n) H).
Qed.

Lemma manual_entry_rejected_witness :
  postReadingManual 0 {| atStart := 1; atId := 1; atDate := 1; atStats := 1 |}
    (JNumber (-3)) None true {| dataFile := Some []; images := [] |}
  = (errorJson 400 "Invalid value", true,
     {| dataFile := Some []; images := [] |}).
Proof.
  apply (manual_entry_rejected 0 _ (JNumber (-3)) None true). reflexivity.
Defined.

(** What an accepted manual entry does. *)
Lemma postReadingManual_accepted tz c v given session srv :
  (0 <= v)%Q ->
  exists stats,
    calculateStats tz (loadData srv ++ [manualReading c v given]) (atStats c)
    = Some stats /\
    postReadingManual tz c (JNumber v) given session srv
    = (json (NewReading (manualReading c v given) stats), session,
       saveData srv (loadData srv ++ [manualReading c v given])).
Proof.
  intros H. unfold postReadingManual.
  rewrite (proj2 (Qgtb_false 0 v) H).
  fold (manualReading c v given). cbv zeta.
  destruct (calculateStats_total tz (loadData srv ++ [manualReading c v given])
              (atStats c)) as [stats E].
  exists stats. split; [exact E | now rewrite E].
Qed.

(** X3: a manual entry with a number that is not negative (0 included)
    appends one reading to the stored ones, which keep their order: its
    id is the clock in milliseconds, its value the given one, its date
    the [date] of the body as it came, or the [toISOString] text of the
    clock when the body has none or a falsy one (0, the empty string,
    [null], [false]); it is marked as manual and has no image, and the
    images are untouched.  The answer carries the statistics of the new
    list at the time of the request; a GET /api/data that follows serves
    the same list with the statistics at its own time. *)
Theorem manual_entry_appends tz c c' v given srv :
  (0 <= v)%Q ->
  exists r stats stats' srv',
    postReadingManual tz c (JNumber v) given true srv
    = (json (NewReading r stats), true, srv') /\
    dataFile srv' = Some (loadData srv ++ [r]) /\
    images srv' = images srv /\
    id r = toString (atId c) /\
    date r = match given with
             | Some d => if falsy (stored d) then isoStamp (atDate c) else d
             | None => isoStamp (atDate c)
             end /\
    value r = v /\
    confidence r = Some "manual"%string /\
    notes r = Some "Manually entered"%string /\
    image r = None /\
    calculateStats tz (loadData srv ++ [r]) (atStats c) = Some stats /\
    calculateStats tz (loadData srv ++ [r]) (atStats c') = Some stats' /\
    getData tz c' true srv'
    = (json (Data (loadData srv ++ [r]) stats'), true, srv').
Proof.
  intros H.
  destruct (postReadingManual_accepted tz c v given true srv H) as (stats & E & Ep).
  destruct (calculateStats_total tz (loadData srv ++ [manualReading c v given])
              (atStats c')) as [stats' E'].
  exists (manualReading c v given), stats, stats'. eexists.
  split; [exact Ep |]. repeat split; try assumption.
  unfold getData. cbn [loadData saveData dataFile]. now rewrite E'.
Qed.

Lemma manual_entry_appends_witness :
  let c := {| atStart := 1; atId := 1717236000000; atDate := 1717236000000;
              atStats := 1717236000001 |} in
  let c' := {| atStart := 2; atId := 1717236000500; atDate := 1717236000500;
               atStats := 1717236000500 |} in
  let srv := {| dataFile := Some [reading (isoDate 2024 5 1) 100];
                images := [] |} in
  let zero := {| stored := JNumber 0; time := 0 |} in
  exists r stats stats' srv',
    postReadingManual 0 c (JNumber 0) (Some zero) true srv
    = (json (NewReading r stats), true, srv') /\
    dataFile srv' = Some [reading (isoDate 2024 5 1) 100; r] /\
    id r = "1717236000000"%string /\
    stored (date r) = JString "2024-06-01T10:00:00.000Z" /\
    time (date r) = 1717236000000 /\
    getData 0 c' true srv'
    = (json (Data [reading (isoDate 2024 5 1) 100; r] stats'), true, srv').
Proof.
  intros c c' srv zero.
  destruct (manual_entry_appends 0 c c' 0 (Some zero) srv)
    as (r & stats & stats' & srv' & E & Hd & _ & Hi & Ht & _ & _ & _ & _ & _
        & _ & Hg);
    [discriminate |].
  exists r, stats, stats', srv'. rewrite Ht.
  repeat split; try assumption; vm_compute; reflexivity.
Defined.

(** The statistics depend on the clock: the week buckets are cut
    relative to [now], so the same readings give another weekly series
    one millisecond later. *)
Example statistics_depend_on_the_clock :
  let rs := [reading (isoDate 2024 5 25) 100; reading (isoDate 2024 5 30) 101] in
  let now := isoDate 2024 6 1 in
  exists st st',
    calculateStats 0 rs (now - 1) = Some st /\
    calculateStats 0 rs now = Some st' /\
    nth_error (rates Weekly st) 51 = Some None /\
    exists q, nth_error (rates Weekly st') 51 = Some (Some q) /\ (q == 200)%Q.
Proof.
  intros rs now.
  destruct (calculateStats 0 rs (now - 1)) as [st |] eqn:E;
    [| vm_compute in E; discriminate].
  destruct (calculateStats 0 rs now) as [st' |] eqn:E';
    [| vm_compute in E'; discriminate].
  exists st, st'. vm_compute in E, E'.
  injection E as <-. injection E' as <-.
  split; [reflexivity |]. split; [reflexivity |]. split; [reflexivity |].
  eexists. split; reflexivity.
Qed.

Lemma findIndex_from_none {A} (p : A -> bool) l : forall i,
  (forall x, In x l -> p x = false) -> findIndex_from p l i = -1.
Proof.
  induction l as [| x l IH]; intros i H; simpl; [reflexivity |].
  rewrite (H x (or_introl eq_refl)). apply IH. intros y Hy. apply H. now right.
Qed.

Lemma findIndex_from_first {A} (p : A -> bool) l1 r l2 : forall i,
  (forall x, In x l1 -> p x = false) -> p r = true ->
  findIndex_from p (l1 ++ r :: l2) i = i + len l1.
Proof.
  induction l1 as [| x l1 IH]; intros i H Hr; simpl.
  - rewrite Hr. unfold len. simpl. lia.
  - rewrite (H x (or_introl eq_refl)). rewrite IH; [| | exact Hr].
    + unfold len. simpl length. lia.
    + intros y Hy. apply H. now right.
Qed.

(** [findIndex] answers -1 or the position of the first match. *)
Lemma findIndex_cases {A} (p : A -> bool) l :
  (findIndex p l = -1 /\ forall x, In x l -> p x = false) \/
  (exists l1 r l2, l = l1 ++ r :: l2 /\ p r = true /\
     (forall x, In x l1 -> p x = false) /\ findIndex p l = len l1).
Proof.
  induction l as [| x l IH].
  - left. split; [reflexivity | intros x []].
  - destruct (p x) eqn:Hx.
    + right. exists [], x, l. repeat split; try assumption.
      * intros y [].
      * unfold findIndex. simpl. now rewrite Hx.
    + destruct IH as [[E H] | (l1 & r & l2 & -> & Hr & H & E)].
      * left. split.
        -- apply findIndex_from_none. intros y [<- | Hy]; auto.
        -- intros y [<- | Hy]; auto.
      * right. exists (x :: l1), r, l2. repeat split; try assumption.
        -- intros y [<- | Hy]; auto.
        -- unfold findIndex.
           change ((x :: l1) ++ r :: l2) with ([x] ++ (l1 ++ r :: l2)).
           simpl app. simpl findIndex_from. rewrite Hx.
           rewrite findIndex_from_first by assumption.
           unfold len. simpl length. lia.
Qed.

Lemma at_middle {A} (l1 : list A) r l2 : at_ (l1 ++ r :: l2) (len l1) = Some r.
Proof.
  unfold at_, len. destruct (Z.ltb_spec (Z.of_nat (length l1)) 0); [lia |].
  rewrite Nat2Z.id. apply lookup_new.
Qed.

Lemma splice1_middle {A} (l1 : list A) r l2 :
  splice1 (l1 ++ r :: l2) (len l1) = l1 ++ l2.
Proof.
  unfold splice1. pose proof (len_nonneg l1) as Hn.
  destruct (Z.ltb_spec (len l1) 0); [lia |].
  rewrite len_app. unfold len in *. simpl length.
  rewrite Z.min_l by lia. rewrite Nat2Z.id.
  rewrite firstn_app, Nat.sub_diag, firstn_all. simpl firstn.
  rewrite app_nil_r. f_equal.
  replace (S (length l1)) with (length l1 + 1)%nat by lia.
  rewrite skipn_app, skipn_all2 by lia.
  replace (length l1 + 1 - length l1)%nat with 1%nat by lia. reflexivity.
Qed.

(** X4: deleting an id that no stored reading has is answered with 404
    and changes nothing. *)
Theorem delete_unknown_id tz c id' session srv :
  (forall r, In r (loadData srv) -> id r <> id') ->
  deleteReading tz c id' session srv
  = (errorJson 404 "Reading not found", session, srv).
Proof.
  intros H. unfold deleteReading.
  destruct (findIndex_cases (fun r => String.eqb (id r) id') (loadData srv))
    as [[E _] | (l1 & r & l2 & El & Hr & _ & _)].
  - now rewrite E.
  - exfalso. apply String.eqb_eq in Hr. apply (H r); [| exact Hr].
    rewrite El. apply in_or_app. right. now left.
Qed.

Lemma delete_unknown_id_witness :
  deleteReading 0 {| atStart := 1; atId := 1; atDate := 1; atStats := 1 |}
    "42" true {| dataFile := Some [reading 5 10]; images := [] |}
  = (errorJson 404 "Reading not found", true,
     {| dataFile := Some [reading 5 10]; images := [] |}).
Proof.
  apply (delete_unknown_id 0 _ "42" true).
  intros r [<- | []]. discriminate.
Defined.

(** What deleting the first reading with a given id does. *)
Lemma deleteReading_first tz c id' session srv l1 r l2 :
  loadData srv = l1 ++ r :: l2 ->
  id r = id' ->
  (forall x, In x l1 -> id x <> id') ->
  exists stats,
    calculateStats tz (l1 ++ l2) (atStats c) = Some stats /\
    deleteReading tz c id' session srv
    = (json (Deleted stats), session,
       saveData
         match image r with
         | Some name =>
             if String.eqb name EmptyString then srv else unlinkImage srv name
         | None => srv
         end (l1 ++ l2)).
Proof.
  intros El Hr Hl1. unfold deleteReading. rewrite El.
  assert (Ei : findIndex (fun x => String.eqb (id x) id') (l1 ++ r :: l2)
               = len l1).
  { unfold findIndex. rewrite findIndex_from_first; [lia | |].
    - intros x Hx. apply String.eqb_neq. now apply Hl1.
    - now apply String.eqb_eq. }
  rewrite Ei. pose proof (len_nonneg l1) as Hn.
  destruct (Z.eqb_spec (len l1) (-1)); [lia |].
  rewrite at_middle, splice1_middle.
  destruct (calculateStats_total tz (l1 ++ l2) (atStats c)) as [stats E].
  exists stats. split; [exact E |]. cbv zeta. now rewrite E.
Qed.

(** X5: deleting an id removes the first stored reading that has it and
    no other; the remaining readings keep their order; the image of the
    removed reading, when it names one, is gone from the images
    directory and every other image stays; the answer carries the
    statistics of the remaining readings. *)
Theorem delete_removes_first tz c id' session srv l1 r l2 :
  loadData srv = l1 ++ r :: l2 ->
  id r = id' ->
  (forall x, In x l1 -> id x <> id') ->
  exists stats srv',
    deleteReading tz c id' session srv = (json (Deleted stats), session, srv') /\
    dataFile srv' = Some (l1 ++ l2) /\
    calculateStats tz (l1 ++ l2) (atStats c) = Some stats /\
    forall f, In f (images srv') <->
              In f (images srv) /\ ~ (image r = Some f /\ f <> EmptyString).
Proof.
  intros El Hr Hl1.
  destruct (deleteReading_first tz c id' session srv l1 r l2 El Hr Hl1)
    as (stats & E & Ed).
  eexists. eexists. split; [exact Ed |].
  split; [reflexivity |]. split; [exact E |].
  intros f. cbn [images saveData]. clear Ed.
  destruct (image r) as [name |]; [| intuition congruence].
  destruct (String.eqb_spec name EmptyString) as [E0 | Hne]; [subst name |].
  - split; [intros Hf; split; [exact Hf |] | tauto].
    intros [[= <-] Hf']. now apply Hf'.
  - cbn [images unlinkImage]. rewrite filter_In, negb_true_iff, String.eqb_neq.
    split; intros [Hf Hn']; (split; [exact Hf |]).
    + intros [[= ->] _]. now apply Hn'.
    + intros ->. apply Hn'. now split.
Qed.

Lemma delete_removes_first_witness :
  let a := {| id := "1"; date := isoStamp 5; value := 10; confidence := None;
              notes := None; image := Some "a.jpg"%string |} in
  let b := {| id := "2"; date := isoStamp 6; value := 11; confidence := None;
              notes := None; image := Some "b.jpg"%string |} in
  let b' := {| id := "2"; date := isoStamp 7; value := 12; confidence := None;
               notes := None; image := None |} in
  let srv := {| dataFile := Some [a; b; b']; images := ["a.jpg"; "b.jpg"]%string |} in
  exists stats srv',
    deleteReading 0 {| atStart := 9; atId := 9; atDate := 9; atStats := 9 |}
      "2" true srv = (json (Deleted stats), true, srv') /\
    dataFile srv' = Some [a; b'] /\
    (In "a.jpg"%string (images srv') /\ ~ In "b.jpg"%string (images srv')).
Proof.
  intros a b b' srv.
  destruct (delete_removes_first 0
              {| atStart := 9; atId := 9; atDate := 9; atStats := 9 |}
              "2" true srv [a] b [b'] eq_refl eq_refl)
    as (stats & srv' & E & Hd & _ & Hi).
  { intros x [<- | []]. discriminate. }
  exists stats, srv'. split; [exact E |]. split; [exact Hd |]. split.
  - apply Hi. split; [now left |]. intros [[=] _].
  - intros Hf. apply Hi in Hf. destruct Hf as [_ Hf]. apply Hf.
    split; [reflexivity | discriminate].
Defined.

(** X6: a manual entry followed by the deletion of the id it was given
    restores the stored readings and leaves the images alone, provided
    no stored reading already had that id. *)
Theorem manual_then_delete_restores tz c c' v given srv :
  (0 <= v)%Q ->
  (forall x, In x (loadData srv) -> id x <> toString (atId c)) ->
  exists r stats srv1 stats' srv2,
    postReadingManual tz c (JNumber v) given true srv
    = (json (NewReading r stats), true, srv1) /\
    deleteReading tz c' (id r) true srv1 = (json (Deleted stats'), true, srv2) /\
    dataFile srv2 = Some (loadData srv) /\
    images srv2 = images srv.
Proof.
  intros Hv Hfresh.
  destruct (postReadingManual_accepted tz c v given true srv Hv)
    as (stats & _ & Ep).
  set (r := manualReading c v given) in *.
  set (srv1 := saveData srv (loadData srv ++ [r])) in *.
  destruct (deleteReading_first tz c' (id r) true srv1 (loadData srv) r []
              eq_refl eq_refl Hfresh) as (stats' & _ & Ed).
  exists r, stats, srv1, stats'. eexists.
  split; [exact Ep |]. split; [exact Ed |].
  cbn [image manualReading r dataFile images saveData srv1].
  now rewrite app_nil_r.
Qed.

Lemma manual_then_delete_restores_witness :
  let c := {| atStart := 1; atId := 1717236000000; atDate := 1717236000000;
              atStats := 1717236000001 |} in
  let srv := {| dataFile := Some [reading (isoDate 2024 5 1) 100];
                images := ["x.jpg"%string] |} in
  exists r stats srv1 stats' srv2,
    postReadingManual 0 c (JNumber 101) None true srv
    = (json (NewReading r stats), true, srv1) /\
    deleteReading 0 c (id r) true srv1 = (json (Deleted stats'), true, srv2) /\
    srv2 = srv.
Proof.
  intros c srv.
  destruct (manual_then_delete_restores 0 c c 101 None srv)
    as (r & stats & srv1 & stats' & srv2 & E1 & E2 & Hd & Hi).
  - discriminate.
  - intros x [<- | []]. discriminate.
  - exists r, stats, srv1, stats', srv2. split; [exact E1 |].
    split; [exact E2 |]. destruct srv2 as [d i]. cbn in Hd, Hi. now subst.
Defined.

(** X7: ids are the clock in milliseconds, so two manual entries made
    within the same millisecond get the same id, and deleting that id
    removes the earlier of the two and keeps the later. *)
Theorem same_millisecond_entries_share_id tz c1 c2 c3 v1 v2 g1 g2 srv :
  (0 <= v1)%Q -> (0 <= v2)%Q ->
  atId c1 = atId c2 ->
  (forall x, In x (loadData srv) -> id x <> toString (atId c1)) ->
  exists r1 s1 srv1 r2 s2 srv2 s3 srv3,
    postReadingManual tz c1 (JNumber v1) g1 true srv
    = (json (NewReading r1 s1), true, srv1) /\
    postReadingManual tz c2 (JNumber v2) g2 true srv1
    = (json (NewReading r2 s2), true, srv2) /\
    id r1 = id r2 /\
    deleteReading tz c3 (id r2) true srv2 = (json (Deleted s3), true, srv3) /\
    dataFile srv3 = Some (loadData srv ++ [r2]) /\
    value r2 = v2.
Proof.
  intros H1 H2 Hc Hfresh.
  destruct (postReadingManual_accepted tz c1 v1 g1 true srv H1)
    as (s1 & _ & E1).
  set (r1 := manualReading c1 v1 g1) in *.
  set (srv1 := saveData srv (loadData srv ++ [r1])) in *.
  destruct (postReadingManual_accepted tz c2 v2 g2 true srv1 H2)
    as (s2 & _ & E2).
  set (r2 := manualReading c2 v2 g2) in *.
  set (srv2 := saveData srv1 (loadData srv1 ++ [r2])) in *.
  assert (El : loadData srv2 = loadData srv ++ r1 :: [r2]).
  { unfold srv2, srv1. cbn [loadData saveData dataFile].
    now rewrite <- app_assoc. }
  assert (Hid : id r1 = id r2).
  { unfold r1, r2. cbn [id manualReading]. now rewrite Hc. }
  destruct (deleteReading_first tz c3 (id r2) true srv2 (loadData srv) r1 [r2]
              El Hid) as (s3 & _ & Ed).
  { intros x Hx. rewrite <- Hid. unfold r1. cbn [id manualReading].
    now apply Hfresh. }
  exists r1, s1, srv1, r2, s2, srv2, s3. eexists.
  split; [exact E1 |]. split; [exact E2 |]. split; [exact Hid |].
  split; [exact Ed |]. split; reflexivity.
Qed.

Lemma same_millisecond_entries_share_id_witness :
  let c := {| atStart := 1; atId := 1717236000000; atDate := 1717236000000;
              atStats := 1717236000001 |} in
  let srv := {| dataFile := Some []; images := [] |} in
  exists r1 s1 srv1 r2 s2 srv2 s3 srv3,
    postReadingManual 0 c (JNumber 100) None true srv
    = (json (NewReading r1 s1), true, srv1) /\
    postReadingManual 0 c (JNumber 105) None true srv1
    = (json (NewReading r2 s2), true, srv2) /\
    deleteReading 0 c (id r2) true srv2 = (json (Deleted s3), true, srv3) /\
    dataFile srv3 = Some [r2] /\ (value r2 == 105)%Q.
Proof.
  intros c srv.
  destruct (same_millisecond_entries_share_id 0 c c c 100 105 None None srv)
    as (r1 & s1 & srv1 & r2 & s2 & srv2 & s3 & srv3 & E1 & E2 & _ & E3 & Hd & Hv);
    try discriminate; try reflexivity.
  - intros x [].
  - exists r1, s1, srv1, r2, s2, srv2, s3, srv3.
    repeat (split; [assumption |]). now rewrite Hv.
Defined.

(** X8: when the data file cannot be read or parsed, GET /api/data
    answers 200 with no readings and the empty statistics, and the next
    accepted manual entry writes a data file that holds that entry
    alone. *)
Theorem unreadable_data_file tz c v given srv :
  dataFile srv = None ->
  (0 <= v)%Q ->
  getData tz c true srv = (json (Data [] noStats), true, srv) /\
  exists r stats srv',
    postReadingManual tz c (JNumber v) given true srv
    = (json (NewReading r stats), true, srv') /\
    dataFile srv' = Some [r] /\ value r = v.
Proof.
  intros Hd Hv. split.
  - unfold getData, loadData. rewrite Hd.
    now rewrite calculateStats_few by (simpl; lia).
  - destruct (postReadingManual_accepted tz c v given true srv Hv)
      as (stats & _ & Ep).
    exists (manualReading c v given), stats. eexists.
    split; [exact Ep |]. cbn [dataFile saveData]. unfold loadData.
    rewrite Hd. split; reflexivity.
Qed.

Lemma unreadable_data_file_witness :
  let c := {| atStart := 1; atId := 2; atDate := 3; atStats := 4 |} in
  let srv := {| dataFile := None; images := [] |} in
  getData 0 c true srv = (json (Data [] noStats), true, srv) /\
  exists r stats srv',
    postReadingManual 0 c (JNumber 7) None true srv
    = (json (NewReading r stats), true, srv') /\
    dataFile srv' = Some [r] /\ value r = 7%Q.
Proof.
  intros c srv. apply (unreadable_data_file 0 c 7 None srv eq_refl).
  discriminate.
Defined.

Lemma findIndex_found {A} (p : A -> bool) l :
  findIndex p l <> -1 -> exists r, at_ l (findIndex p l) = Some r /\ p r = true.
Proof.
  intros H.
  destruct (findIndex_cases p l) as [[E _] | (l1 & r & l2 & -> & Hr & _ & E)];
    [congruence |].
  exists r. rewrite E, at_middle. now split.
Qed.

(** X9: on a data file that cannot be read, or that holds an array of
    readings (the data files of [Server]), the only request that a
    handler answers with 500 is an upload during which the image
    pipeline or the vision model threw: on such a file
    [calculateStats] and the array reads of the delete route never
    throw, whatever readings it holds and in whatever order. *)
Theorem only_failed_uploads_answer_500 APP_PASSWORD tz c req session srv :
  status (fst (fst (handle APP_PASSWORD tz c req session srv))) = 500 ->
  exists message, req = PostReading true (Threw message) /\ session = true.
Proof.
  destruct req as [| password | | | | photo pipeline | value given | id'];
    cbn [handle requireAuth authStatus logout fst].
  - discriminate.
  - unfold login. destruct password; try discriminate.
    destruct (String.eqb s APP_PASSWORD); discriminate.
  - discriminate.
  - destruct session; [| discriminate]. unfold getData.
    destruct (calculateStats_total tz (loadData srv) (atStats c)) as [st E].
    rewrite E. discriminate.
  - destruct session; discriminate.
  - destruct session; [| discriminate]. unfold postReading.
    destruct photo; [| discriminate]. cbn [negb].
    destruct pipeline as [message | analysis]; [eauto |].
    destruct (a_value analysis); try discriminate.
    destruct (falsy (JNumber n)); [discriminate |]. cbv zeta.
    match goal with
    | |- context [calculateStats tz ?l ?t] =>
        destruct (calculateStats_total tz l t) as [st E]; rewrite E
    end.
    discriminate.
  - destruct session; [| discriminate]. unfold postReadingManual.
    destruct value; try discriminate.
    destruct (Qgtb 0 n); [discriminate |]. cbv zeta.
    match goal with
    | |- context [calculateStats tz ?l ?t] =>
        destruct (calculateStats_total tz l t) as [st E]; rewrite E
    end.
    discriminate.
  - destruct session; [| discriminate]. unfold deleteReading.
    destruct (Z.eqb_spec
                (findIndex (fun r => String.eqb (id r) id')
                   (loadData srv)) (-1)) as [| Hne]; [discriminate |].
    destruct (findIndex_found _ _ Hne) as (r & Er & _). rewrite Er. cbv zeta.
    match goal with
    | |- context [calculateStats tz ?l ?t] =>
        destruct (calculateStats_total tz l t) as [st E]; rewrite E
    end.
    discriminate.
Qed.

Lemma only_failed_uploads_answer_500_witness :
  exists message,
    PostReading true (Threw "Input buffer contains unsupported image format")
    = PostReading true (Threw message) /\ true = true.
Proof.
  apply (only_failed_uploads_answer_500 "wasser2024" 0
           {| atStart := 1; atId := 2; atDate := 3; atStats := 4 |} _ true
           {| dataFile := Some []; images := [] |}).
  reflexivity.
Defined.

(** X10: an upload whose analysis carries no number, or the number 0,
    is answered with 400 and changes nothing: no image is stored and no
    reading is added. *)
Theorem upload_without_value_rejected tz c analysis session srv :
  match a_value analysis with
  | JNumber n => (n == 0)%Q
  | _ => True
  end ->
  postReading tz c true (Analysed analysis) session srv
  = ({| status := 400;
        body := ErrorWithAnalysis "Could not read meter value from image"
                  analysis |}, session, srv).
Proof.
  unfold postReading. cbn [negb].
  destruct (a_value analysis); try reflexivity.
  intros H. cbn [falsy]. now rewrite (proj2 (Qeq_bool_iff n 0) H).
Qed.

Lemma upload_without_value_rejected_witness :
  let analysis := {| a_value := JNumber 0; a_confidence := Some "low"%string;
                     a_notes := None |} in
  let srv := {| dataFile := Some [reading 5 10]; images := [] |} in
  postReading 0 {| atStart := 1; atId := 2; atDate := 3; atStats := 4 |}
    true (Analysed analysis) true srv
  = ({| status := 400;
        body := ErrorWithAnalysis "Could not read meter value from image"
                  analysis |}, true, srv).
Proof.
  intros analysis srv.
  apply (upload_without_value_rejected 0 _ analysis true srv). reflexivity.
Defined.

(** What an accepted upload does. *)
Lemma postReading_accepted tz c analysis n session srv :
  a_value analysis = JNumber n -> ~ (n == 0)%Q ->
  let filename := photoName tz (atStart c) in
  let r := {| id := toString (atId c); date := isoStamp (atStart c);
              value := n;
              confidence := a_confidence analysis; notes := a_notes analysis;
              image := Some filename |} in
  exists stats,
    calculateStats tz (loadData srv ++ [r]) (atStats c) = Some stats /\
    postReading tz c true (Analysed analysis) session srv
    = (json (NewReading r stats), session,
       saveData (writeImage srv filename) (loadData srv ++ [r])).
Proof.
  intros Hv Hn filename r. unfold postReading. cbn [negb]. rewrite Hv.
  cbn [falsy].
  destruct (Qeq_bool n 0) eqn:Hq; [now apply Qeq_bool_iff in Hq |].
  cbv zeta. fold filename.
  change (loadData (writeImage srv filename)) with (loadData srv).
  fold r.
  destruct (calculateStats_total tz (loadData srv ++ [r]) (atStats c))
    as [stats E].
  exists stats. split; [exact E | now rewrite E].
Qed.

(** X11: an upload whose analysis carries a number other than 0, a
    negative one included, stores the image under the name built from
    the start time and appends one reading that refers to it, dated by
    the [toISOString] text of the start time; stored readings and
    stored images are kept. *)
Theorem upload_appends tz c analysis n srv :
  a_value analysis = JNumber n -> ~ (n == 0)%Q ->
  exists r stats srv',
    postReading tz c true (Analysed analysis) true srv
    = (json (NewReading r stats), true, srv') /\
    dataFile srv' = Some (loadData srv ++ [r]) /\
    value r = n /\ date r = isoStamp (atStart c) /\
    image r = Some (photoName tz (atStart c)) /\
    In (photoName tz (atStart c)) (images srv') /\
    (forall f, In f (images srv) -> In f (images srv')) /\
    (length (images srv') <= S (length (images srv)))%nat.
Proof.
  intros Hv Hn.
  destruct (postReading_accepted tz c analysis n true srv Hv Hn)
    as (stats & _ & Ep).
  eexists. exists stats. eexists. split; [exact Ep |].
  cbn [dataFile saveData value date image images writeImage].
  repeat (split; [reflexivity |]).
  destruct (existsb (String.eqb (photoName tz (atStart c))) (images srv))
    eqn:Ex.
  - split; [| split; [auto | lia]].
    apply existsb_exists in Ex. destruct Ex as (f & Hf & Ef).
    apply String.eqb_eq in Ef. now subst f.
  - split; [apply in_or_app; right; now left |].
    split; [intros f Hf; apply in_or_app; now left |].
    rewrite length_app. simpl. lia.
Qed.

Lemma upload_appends_witness :
  let analysis := {| a_value := JNumber (-2); a_confidence := Some "low"%string;
                     a_notes := None |} in
  let c := {| atStart := 1717236000000; atId := 1717236003000; atDate := 0;
              atStats := 1717236003001 |} in
  let srv := {| dataFile := Some []; images := [] |} in
  exists r stats srv',
    postReading 0 c true (Analysed analysis) true srv
    = (json (NewReading r stats), true, srv') /\
    dataFile srv' = Some [r] /\ value r = (-2)%Q /\
    images srv' = ["photo_2024-06-01_10-00-00.jpg"%string].
Proof.
  intros analysis c srv.
  destruct (upload_appends 0 c analysis (-2) srv eq_refl)
    as (r & stats & srv' & E & Hd & Hv & _); [discriminate |].
  exists r, stats, srv'. repeat (split; [assumption |]).
  vm_compute in E. now injection E as _ _ <-.
Defined.

Lemma Day_seconds t : Day t = t / 1000 / 86400.
Proof.
  unfold Day. change msPerDay with (1000 * 86400).
  now rewrite Z.div_div by lia.
Qed.

Lemma calendar_same_day t1 t2 :
  Day t1 = Day t2 ->
  YearFromTime t1 = YearFromTime t2 /\
  MonthFromTime t1 = MonthFromTime t2 /\
  DateFromTime t1 = DateFromTime t2.
Proof.
  intros H.
  assert (Y : YearFromTime t1 = YearFromTime t2)
    by (unfold YearFromTime; now rewrite H).
  assert (L : InLeapYear t1 = InLeapYear t2)
    by (unfold InLeapYear; now rewrite Y).
  assert (W : DayWithinYear t1 = DayWithinYear t2)
    by (unfold DayWithinYear; now rewrite H, Y).
  assert (M : MonthFromTime t1 = MonthFromTime t2)
    by (unfold MonthFromTime; now rewrite W, L).
  repeat split; try assumption.
  unfold DateFromTime. now rewrite W, L, M.
Qed.

Lemma clock_same_second t1 t2 :
  t1 / 1000 = t2 / 1000 ->
  HourFromTime t1 = HourFromTime t2 /\
  MinFromTime t1 = MinFromTime t2 /\
  SecFromTime t1 = SecFromTime t2.
Proof.
  intros H. unfold HourFromTime, MinFromTime, SecFromTime.
  change (1000 * 60 * 60) with (1000 * 3600).
  rewrite <- !Z.div_div by lia. now rewrite H.
Qed.

Lemma photoName_same_second tz t1 t2 :
  t1 / 1000 = t2 / 1000 ->
  (t1 + tz) / 1000 = (t2 + tz) / 1000 ->
  photoName tz t1 = photoName tz t2.
Proof.
  intros Hu Hl.
  destruct (calendar_same_day t1 t2) as (Y & M & D).
  { now rewrite !Day_seconds, Hu. }
  destruct (clock_same_second (LocalTime tz t1) (LocalTime tz t2) Hl)
    as (Hh & Hm & Hs).
  unfold photoName. now rewrite Y, M, D, Hh, Hm, Hs.
Qed.

Lemma writeImage_present srv name :
  existsb (String.eqb name) (images (writeImage srv name)) = true.
Proof.
  unfold writeImage. cbn [images].
  destruct (existsb (String.eqb name) (images srv)) eqn:E; [exact E |].
  rewrite existsb_app. cbn [existsb]. rewrite String.eqb_refl.
  now rewrite orb_true_r.
Qed.

(** X12: the image name has the resolution of a second, so two accepted
    uploads started within the same second (UTC and local) are stored
    under one name: the second overwrites the image of the first, the
    images directory does not grow, and both readings refer to the same
    file. *)
Theorem same_second_uploads_share_image tz c1 c2 a1 a2 n1 n2 srv :
  a_value a1 = JNumber n1 -> ~ (n1 == 0)%Q ->
  a_value a2 = JNumber n2 -> ~ (n2 == 0)%Q ->
  atStart c1 / 1000 = atStart c2 / 1000 ->
  (atStart c1 + tz) / 1000 = (atStart c2 + tz) / 1000 ->
  exists r1 s1 srv1 r2 s2 srv2,
    postReading tz c1 true (Analysed a1) true srv
    = (json (NewReading r1 s1), true, srv1) /\
    postReading tz c2 true (Analysed a2) true srv1
    = (json (NewReading r2 s2), true, srv2) /\
    dataFile srv2 = Some (loadData srv ++ [r1; r2]) /\
    image r1 = image r2 /\ image r1 = Some (photoName tz (atStart c1)) /\
    images srv2 = images srv1.
Proof.
  intros V1 N1 V2 N2 Hu Hl.
  destruct (postReading_accepted tz c1 a1 n1 true srv V1 N1) as (s1 & _ & E1).
  cbv zeta in E1.
  set (f := photoName tz (atStart c1)) in *.
  match type of E1 with
  | _ = (json (NewReading ?r _), _, ?s) => set (r1 := r) in *; set (srv1 := s) in *
  end.
  destruct (postReading_accepted tz c2 a2 n2 true srv1 V2 N2) as (s2 & _ & E2).
  cbv zeta in E2.
  rewrite <- (photoName_same_second tz _ _ Hu Hl) in E2. fold f in E2.
  match type of E2 with
  | _ = (json (NewReading ?r _), _, ?s) => set (r2 := r) in *; set (srv2 := s) in *
  end.
  exists r1, s1, srv1, r2, s2, srv2.
  split; [exact E1 |]. split; [exact E2 |].
  split; [unfold srv2, srv1; cbn [dataFile saveData loadData writeImage];
          now rewrite <- app_assoc |].
  split; [reflexivity |]. split; [reflexivity |].
  unfold srv2. cbn [images saveData]. unfold writeImage at 1. cbn [images].
  assert (Hp : existsb (String.eqb f) (images srv1) = true).
  { unfold srv1. cbn [images saveData]. apply writeImage_present. }
  now rewrite Hp.
Qed.

Lemma same_second_uploads_share_image_witness :
  let a1 := {| a_value := JNumber 100; a_confidence := None; a_notes := None |} in
  let a2 := {| a_value := JNumber 101; a_confidence := None; a_notes := None |} in
  let c1 := {| atStart := 1717236000100; atId := 1717236003000; atDate := 0;
               atStats := 1717236003001 |} in
  let c2 := {| atStart := 1717236000900; atId := 1717236004000; atDate := 0;
               atStats := 1717236004001 |} in
  let srv := {| dataFile := Some []; images := [] |} in
  exists r1 s1 srv1 r2 s2 srv2,
    postReading 0 c1 true (Analysed a1) true srv
    = (json (NewReading r1 s1), true, srv1) /\
    postReading 0 c2 true (Analysed a2) true srv1
    = (json (NewReading r2 s2), true, srv2) /\
    dataFile srv2 = Some [r1; r2] /\
    images srv2 = ["photo_2024-06-01_10-00-00.jpg"%string].
Proof.
  intros a1 a2 c1 c2 srv.
  destruct (same_second_uploads_share_image 0 c1 c2 a1 a2 100 101 srv)
    as (r1 & s1 & srv1 & r2 & s2 & srv2 & E1 & E2 & Hd & _ & _ & Hi);
    try reflexivity; try discriminate.
  exists r1, s1, srv1, r2, s2, srv2.
  repeat (split; [assumption |]). rewrite Hi.
  vm_compute in E1. now injection E1 as _ _ <-.
Defined.

(** ** Calendar months *)

Lemma DaysInYear_range y : DaysInYear y = 365 \/ DaysInYear y = 366.
Proof.
  unfold DaysInYear, DayFromYear. Z.to_euclidean_division_equations. lia.
Qed.

Lemma DayFromYear_mono y y' : y <= y' -> DayFromYear y <= DayFromYear y'.
Proof.
  unfold DayFromYear. intros H. Z.to_euclidean_division_equations. lia.
Qed.

Lemma YearFromTime_unique t y :
  TimeFromYear y <= t < TimeFromYear (y + 1) -> YearFromTime t = y.
Proof.
  intros H. pose proof (YearFromTime_spec t) as S.
  unfold TimeFromYear, msPerDay in *.
  destruct (Z.lt_trichotomy (YearFromTime t) y) as [Hlt | [E | Hgt]];
    [exfalso | exact E | exfalso].
  - pose proof (DayFromYear_mono (YearFromTime t + 1) y ltac:(lia)). lia.
  - pose proof (DayFromYear_mono (y + 1) (YearFromTime t) ltac:(lia)). lia.
Qed.

(** The first instant of month [mn] of year [y] reads back as that year
    and month. *)
Lemma first_of_month_reads_back y mn :
  0 <= mn <= 11 ->
  let t := MakeDate (DayFromYear y + daysBeforeMonth (DaysInYear y - 365) mn) 0 in
  YearFromTime t = y /\ MonthFromTime t = mn.
Proof.
  intros Hm t.
  assert (Hd : Day t = DayFromYear y + daysBeforeMonth (DaysInYear y - 365) mn).
  { unfold t, MakeDate, Day. rewrite Z.add_0_r. apply Z.div_mul.
    unfold msPerDay. lia. }
  assert (Hb : 0 <= daysBeforeMonth (DaysInYear y - 365) mn < DaysInYear y).
  { destruct (DaysInYear_range y) as [E | E]; rewrite E;
      assert (C : mn = 0 \/ mn = 1 \/ mn = 2 \/ mn = 3 \/ mn = 4 \/ mn = 5 \/
                  mn = 6 \/ mn = 7 \/ mn = 8 \/ mn = 9 \/ mn = 10 \/ mn = 11)
        by lia;
      repeat (destruct C as [-> | C]); try subst mn; cbn; lia. }
  assert (Hy : YearFromTime t = y).
  { apply YearFromTime_unique. unfold TimeFromYear.
    assert (Hdy : DaysInYear y = DayFromYear (y + 1) - DayFromYear y)
      by reflexivity.
    unfold t, MakeDate, msPerDay. lia. }
  split; [exact Hy |].
  unfold MonthFromTime, DayWithinYear, InLeapYear. rewrite Hy, Hd.
  replace (DayFromYear y + daysBeforeMonth (DaysInYear y - 365) mn
           - DayFromYear y)
    with (daysBeforeMonth (DaysInYear y - 365) mn) by lia.
  destruct (DaysInYear_range y) as [E | E]; rewrite E;
    assert (C : mn = 0 \/ mn = 1 \/ mn = 2 \/ mn = 3 \/ mn = 4 \/ mn = 5 \/
                mn = 6 \/ mn = 7 \/ mn = 8 \/ mn = 9 \/ mn = 10 \/ mn = 11)
      by lia;
    repeat (destruct C as [-> | C]); try subst mn; reflexivity.
Qed.

Lemma MonthFromTime_range t : 0 <= MonthFromTime t <= 11.
Proof.
  unfold MonthFromTime.
  repeat match goal with
  | |- context [ if ?b then _ else _ ] => destruct b
  end; lia.
Qed.

(** [new Date(y, x, 1)] in local time, for any month number [x]. *)
Lemma MakeDay_first y x :
  MakeDay y x 1
  = DayFromYear (y + x / 12)
    + daysBeforeMonth (DaysInYear (y + x / 12) - 365) (x mod 12).
Proof. unfold MakeDay. lia. Qed.

Lemma first_of_any_month_reads_back y x :
  let t := MakeDate (MakeDay y x 1) 0 in
  YearFromTime t = y + x / 12 /\ MonthFromTime t = x mod 12.
Proof.
  intros t. unfold t. rewrite MakeDay_first.
  apply first_of_month_reads_back.
  pose proof (Z.mod_pos_bound x 12). lia.
Qed.

(** A month has 28 to 31 days. *)
Lemma month_length y x :
  28 <= MakeDay y (x + 1) 1 - MakeDay y x 1 <= 31.
Proof.
  rewrite !MakeDay_first.
  assert (Hm : 0 <= x mod 12 < 12) by (apply Z.mod_pos_bound; lia).
  assert (Hq : x = 12 * (x / 12) + x mod 12) by (apply Z.div_mod; lia).
  set (q := x / 12) in *. set (m := x mod 12) in *.
  assert (C : m = 0 \/ m = 1 \/ m = 2 \/ m = 3 \/ m = 4 \/ m = 5 \/
              m = 6 \/ m = 7 \/ m = 8 \/ m = 9 \/ m = 10 \/ m = 11) by lia.
  assert (Hdy : forall z, DaysInYear z = DayFromYear (z + 1) - DayFromYear z)
    by reflexivity.
  destruct (Z.eq_dec m 11) as [E11 | N11].
  - assert (E1 : (x + 1) / 12 = q + 1).
    { symmetry. apply (Z.div_unique (x + 1) 12 (q + 1) 0); lia. }
    assert (E2 : (x + 1) mod 12 = 0).
    { symmetry. apply (Z.mod_unique (x + 1) 12 (q + 1) 0); lia. }
    rewrite E1, E2, E11. replace (y + (q + 1)) with (y + q + 1) by lia.
    pose proof (Hdy (y + q)) as H1.
    destruct (DaysInYear_range (y + q)) as [E | E]; rewrite E in *;
      cbn [daysBeforeMonth]; cbn; lia.
  - assert (E1 : (x + 1) / 12 = q).
    { symmetry. apply (Z.div_unique (x + 1) 12 q (m + 1)); lia. }
    assert (E2 : (x + 1) mod 12 = m + 1).
    { symmetry. apply (Z.mod_unique (x + 1) 12 q (m + 1)); lia. }
    rewrite E1, E2.
    destruct (DaysInYear_range (y + q)) as [E | E]; rewrite E;
      repeat (destruct C as [-> | C]); try subst m; cbn; lia.
Qed.

Lemma Date_of_plain tz y m d :
  ~ (0 <= y <= 99) -> Date_of tz y m d = UTC tz (MakeDate (MakeDay y m d) 0).
Proof.
  intros H. unfold Date_of.
  destruct (Z.leb_spec 0 y), (Z.leb_spec y 99); cbn [andb]; try reflexivity.
  lia.
Qed.

Lemma MakeDay_day_before y m : MakeDay y m 0 = MakeDay y m 1 - 1.
Proof. unfold MakeDay. lia. Qed.

(** Start and end of the month buckets by plain day numbers. *)
Lemma month_bounds tz now i :
  100 < getFullYear tz now -> -1 <= i <= 11 ->
  let x := getMonth tz now - i in
  monthDate tz now i
  = UTC tz (MakeDate (MakeDay (getFullYear tz now) x 1) 0) /\
  monthEnd tz now i
  = UTC tz (MakeDate (MakeDay (getFullYear tz now) (x + 1) 1 - 1) 0).
Proof.
  intros Hy Hi x.
  assert (Hmd : monthDate tz now i
                = UTC tz (MakeDate (MakeDay (getFullYear tz now) x 1) 0)).
  { unfold monthDate. apply Date_of_plain. lia. }
  split; [exact Hmd |].
  unfold monthEnd. cbv zeta. rewrite Hmd.
  unfold getFullYear at 1, getMonth at 1.
  replace (LocalTime tz (UTC tz (MakeDate (MakeDay (getFullYear tz now) x 1) 0)))
    with (MakeDate (MakeDay (getFullYear tz now) x 1) 0)
    by (unfold LocalTime, UTC; lia).
  destruct (first_of_any_month_reads_back (getFullYear tz now) x) as [Ey Em].
  rewrite Ey, Em.
  pose proof (MonthFromTime_range (LocalTime tz now)) as HM.
  fold (getMonth tz now) in HM.
  assert (Hq : -1 <= x / 12 <= 1).
  { unfold x. Z.to_euclidean_division_equations. lia. }
  rewrite Date_of_plain by lia.
  rewrite MakeDay_day_before. do 3 f_equal.
  rewrite !MakeDay_first.
  assert (Hm : 0 <= x mod 12 < 12) by (apply Z.mod_pos_bound; lia).
  assert (Hx : x = 12 * (x / 12) + x mod 12) by (apply Z.div_mod; lia).
  set (q := x / 12) in *. set (m := x mod 12) in *.
  destruct (Z.eq_dec m 11) as [E11 | N11].
  - assert (E1 : (x + 1) / 12 = q + 1).
    { symmetry. apply (Z.div_unique (x + 1) 12 (q + 1) 0); lia. }
    assert (E2 : (x + 1) mod 12 = 0).
    { symmetry. apply (Z.mod_unique (x + 1) 12 (q + 1) 0); lia. }
    rewrite E1, E2, E11. change ((11 + 1) / 12) with 1.
    change ((11 + 1) mod 12) with 0.
    now replace (getFullYear tz now + q + 1)
      with (getFullYear tz now + (q + 1)) by lia.
  - assert (E1 : (x + 1) / 12 = q).
    { symmetry. apply (Z.div_unique (x + 1) 12 q (m + 1)); lia. }
    assert (E2 : (x + 1) mod 12 = m + 1).
    { symmetry. apply (Z.mod_unique (x + 1) 12 q (m + 1)); lia. }
    assert (E3 : (m + 1) / 12 = 0) by (apply Z.div_small; lia).
    assert (E4 : (m + 1) mod 12 = m + 1) by (apply Z.mod_small; lia).
    rewrite E1, E2, E3, E4. now rewrite Z.add_0_r.
Qed.

Lemma MakeDay_mono y x x' : x <= x' -> MakeDay y x 1 <= MakeDay y x' 1.
Proof.
  intros H. remember (Z.to_nat (x' - x)) as n eqn:En.
  revert x' H En. induction n as [| n IH]; intros x' H En.
  - assert (x' = x) by lia. subst. lia.
  - pose proof (IH (x' - 1) ltac:(lia) ltac:(lia)) as H1.
    pose proof (month_length y (x' - 1)) as H2.
    replace (x' - 1 + 1) with x' in H2 by lia. lia.
Qed.

Lemma In_countdown n i : In i (countdown n) <-> 0 <= i <= Z.of_nat n.
Proof.
  induction n as [| n IH].
  - simpl. split; [intros [<- | []]; lia | intros H; left; lia].
  - change (countdown (S n)) with (Z.of_nat (S n) :: countdown n).
    cbn [In]. rewrite IH. lia.
Qed.

Lemma inBucket_Monthly_bounds tz now i t :
  inBucket Monthly tz now i t ->
  monthDate tz now i <= t <= monthEnd tz now i.
Proof. intros H. exact H. Qed.

Lemma inBucket_Weekly_bounds tz now i t :
  inBucket Weekly tz now i t ->
  weekStart now i < t <= weekEnd now i.
Proof. intros H. exact H. Qed.

Lemma inBucket_Weekly_intro tz now i t :
  weekStart now i < t <= weekEnd now i ->
  inBucket Weekly tz now i t.
Proof. intros H. exact H. Qed.

(** X13: a month bucket ends at local midnight at the start of the
    month's last day: its end lies exactly one day before the first
    instant of the following month and at least 27 days after its own
    start.  A reading taken later on the last day of a month is
    therefore inside none of the twelve month buckets.  (Years 0 to 100
    are left aside, see [Date_of].) *)
Theorem month_bucket_excludes_last_day tz now i :
  100 < getFullYear tz now -> 0 <= i <= 11 ->
  monthEnd tz now i + msPerDay = monthDate tz now (i - 1) /\
  monthDate tz now i + 27 * msPerDay <= monthEnd tz now i /\
  forall t, monthEnd tz now i < t < monthDate tz now (i - 1) ->
    forall j, In j (indices Monthly) -> ~ inBucket Monthly tz now j t.
Proof.
  intros Hy Hi.
  destruct (month_bounds tz now i Hy ltac:(lia)) as [Ed Ee].
  destruct (month_bounds tz now (i - 1) Hy ltac:(lia)) as [Ed' _].
  cbv zeta in Ed, Ee, Ed'.
  replace (getMonth tz now - (i - 1)) with (getMonth tz now - i + 1) in Ed'
    by lia.
  pose proof (month_length (getFullYear tz now) (getMonth tz now - i)) as Hlen.
  rewrite Ee, Ed, Ed'. clear Ed Ee Ed'.
  split; [unfold UTC, MakeDate, msPerDay; lia |].
  split; [unfold UTC, MakeDate, msPerDay; lia |].
  intros t Ht j Hj Hin. apply In_countdown in Hj.
  apply inBucket_Monthly_bounds in Hin.
  destruct (month_bounds tz now j Hy ltac:(lia)) as [Edj Eej].
  cbv zeta in Edj, Eej. rewrite Edj, Eej in Hin. clear Edj Eej.
  destruct (Z_lt_le_dec j i) as [Hlt | Hge].
  - (* a later month: it starts at or after the following month *)
    pose proof (MakeDay_mono (getFullYear tz now) (getMonth tz now - i + 1)
                  (getMonth tz now - j) ltac:(lia)) as Hm.
    revert Ht Hin. unfold UTC, MakeDate, msPerDay. lia.
  - (* this month or an earlier one: it ends at or before this end *)
    pose proof (MakeDay_mono (getFullYear tz now) (getMonth tz now - j + 1)
                  (getMonth tz now - i + 1) ltac:(lia)) as Hm.
    revert Ht Hin. unfold UTC, MakeDate, msPerDay. lia.
Qed.

Lemma month_bucket_excludes_last_day_witness :
  let now := isoDate 2024 3 15 in
  let lateJanuary := isoDate 2024 1 31 + 10 * 60 * 60 * 1000 in
  monthDate 0 now 2 = isoDate 2024 1 1 /\
  monthEnd 0 now 2 = isoDate 2024 1 31 /\
  (forall j, In j (indices Monthly) -> ~ inBucket Monthly 0 now j lateJanuary) /\
  exists st,
    calculateStats 0 [reading (isoDate 2023 12 15) 100; reading lateJanuary 103]
      now = Some st /\
    rates Monthly st = repeat None 12.
Proof.
  intros now lateJanuary.
  split; [vm_compute; reflexivity |]. split; [vm_compute; reflexivity |].
  split.
  - destruct (month_bucket_excludes_last_day 0 now 2) as (_ & _ & H).
    + vm_compute. reflexivity.
    + lia.
    + apply H. vm_compute. split; reflexivity.
  - destruct (calculateStats 0
                [reading (isoDate 2023 12 15) 100; reading lateJanuary 103] now)
      as [st |] eqn:E; [| vm_compute in E; discriminate].
    exists st. vm_compute in E. injection E as <-. split; reflexivity.
Defined.

(** X14: the 52 week buckets tile the last 364 days: every instant
    after [now] minus 52 weeks and up to [now] lies inside exactly one
    week bucket. *)
Theorem week_buckets_tile tz now t :
  weekStart now 51 < t <= now ->
  exists i, In i (indices Weekly) /\ inBucket Weekly tz now i t /\
    forall j, In j (indices Weekly) -> inBucket Weekly tz now j t -> j = i.
Proof.
  intros H. unfold weekStart in H.
  exists ((now - t) / (7 * 24 * 60 * 60 * 1000)).
  assert (Hdm : now - t = 7 * 24 * 60 * 60 * 1000
                          * ((now - t) / (7 * 24 * 60 * 60 * 1000))
                          + (now - t) mod (7 * 24 * 60 * 60 * 1000))
    by (apply Z.div_mod; lia).
  assert (Hr : 0 <= (now - t) mod (7 * 24 * 60 * 60 * 1000)
               < 7 * 24 * 60 * 60 * 1000)
    by (apply Z.mod_pos_bound; lia).
  set (i := (now - t) / (7 * 24 * 60 * 60 * 1000)) in *.
  set (m := (now - t) mod (7 * 24 * 60 * 60 * 1000)) in *.
  clearbody i m.
  split; [| split].
  - apply In_countdown. change (Z.of_nat 51) with 51. lia.
  - apply inBucket_Weekly_intro. unfold weekStart, weekEnd. lia.
  - intros j Hj Hin. apply In_countdown in Hj.
    change (Z.of_nat 51) with 51 in Hj.
    apply inBucket_Weekly_bounds in Hin.
    unfold weekStart, weekEnd in Hin. lia.
Qed.

Lemma week_buckets_tile_witness :
  let now := isoDate 2024 6 1 in
  exists i, In i (indices Weekly) /\
    inBucket Weekly 0 now i (isoDate 2024 2 1) /\
    forall j, In j (indices Weekly) ->
              inBucket Weekly 0 now j (isoDate 2024 2 1) -> j = i.
Proof.
  intros now. apply (week_buckets_tile 0 now (isoDate 2024 2 1)).
  vm_compute. split; [reflexivity | discriminate].
Defined.

(** ** More on [calculateStats] *)

(** X15: [Math.round(x * 10) / 10], the rounding of every rate,
    duration and litre figure of lines 128-130, 149, 186 and 213,
    returns a whole number of tenths that differs from [x] by at most
    one twentieth, an exact half going up. *)
Theorem round1_accuracy x :
  exists n : Z, (round1 x == n # 10)%Q /\
    (x - (1 # 20) < round1 x)%Q /\ (round1 x <= x + (1 # 20))%Q.
Proof.
  destruct (Math_round_spec (x * 10)) as (n & En & Hlo & Hhi).
  assert (E : (round1 x == n # 10)%Q).
  { unfold round1. rewrite En. unfold Qdiv, Qeq, Qmult, Qinv, inject_Z.
    simpl. lia. }
  exists n. split; [exact E |]. rewrite E.
  unfold Qlt, Qle, Qminus, Qplus, Qmult, Qopp, inject_Z in *.
  destruct x as [a b]. simpl in *. split; lia.
Qed.

Lemma Math_round_nonneg x : (0 <= x)%Q -> (0 <= Math_round x)%Q.
Proof.
  intros H. unfold Math_round. rewrite <- (Zle_Qle 0).
  change 0 with (Qfloor 0). apply Qfloor_resp_le.
  apply Qle_trans with x; [exact H |].
  rewrite <- (Qplus_0_r x) at 1. apply Qplus_le_r. discriminate.
Qed.

Lemma round1_nonneg x : (0 <= x)%Q -> (0 <= round1 x)%Q.
Proof.
  intros H. unfold round1. apply Qle_shift_div_l; [reflexivity |].
  rewrite Qmult_0_l. apply Math_round_nonneg.
  apply Qmult_le_0_compat; [exact H | discriminate].
Qed.

Lemma daysBetween_nonneg a b : date a <= date b -> (0 <= daysBetween a b)%Q.
Proof.
  intros H. unfold daysBetween. apply Qle_shift_div_l; [reflexivity |].
  rewrite Qmult_0_l. rewrite <- (Zle_Qle 0). lia.
Qed.

Lemma litersBetween_nonneg a b :
  (value a <= value b)%Q -> (0 <= litersBetween a b)%Q.
Proof.
  intros H. unfold litersBetween. apply Qmult_le_0_compat; [| discriminate].
  apply (Qplus_le_l _ _ (value a)). ring_simplify. exact H.
Qed.

Lemma rate_nonneg l d : (0 <= l)%Q -> Qgtb d 0 = true -> (0 <= l / d)%Q.
Proof.
  intros Hl Hd. apply Qgtb_true in Hd.
  apply Qle_shift_div_l; [exact Hd |]. now rewrite Qmult_0_l.
Qed.

Lemma filter_sorted p l : byDateSorted l -> byDateSorted (filter p l).
Proof.
  unfold byDateSorted. induction 1 as [| x l Hs IH Hx]; simpl; [constructor |].
  destruct (p x); [| exact IH]. constructor; [exact IH |].
  rewrite Forall_forall in *. intros y Hy. apply Hx.
  now apply filter_In in Hy.
Qed.

Lemma sorted_ends f mid t :
  byDateSorted (f :: mid ++ [t]) -> date f <= date t.
Proof.
  intros H. inversion H as [| ? ? _ Hf]; subst.
  rewrite Forall_forall in Hf. apply Hf. apply in_or_app. right. now left.
Qed.

Lemma sorted_snoc2 pre a b : byDateSorted (pre ++ [a; b]) -> date a <= date b.
Proof.
  unfold byDateSorted. induction pre as [| x pre IH]; simpl; intros H.
  - inversion H as [| ? ? _ Hf]; subst. now inversion Hf.
  - inversion H; subst. auto.
Qed.

(** X16: if the meter never runs backwards, that is, a reading that is
    not older than another has a value that is not smaller, then no
    figure of the statistics is negative: days, litres and rates of the
    last interval, of the year, and of every bucket. *)
Theorem monotone_meter_no_negative_figure tz rs now :
  (forall a b, In a rs -> In b rs -> date a <= date b ->
               (value a <= value b)%Q) ->
  exists st, calculateStats tz rs now = Some st /\
    (forall li, lastInterval st = Some li ->
       (0 <= li_days li)%Q /\ (0 <= li_liters li)%Q /\
       (0 <= li_litersPerDay li)%Q) /\
    (forall ys, yearStats st = Some ys ->
       (0 <= ys_totalLiters ys)%Q /\ (0 <= ys_avgLitersPerDay ys)%Q /\
       (0 <= ys_days ys)%Q) /\
    (forall w q, In (Some q) (rates w st) -> (0 <= q)%Q).
Proof.
  intros Hmono.
  destruct (Nat.lt_ge_cases (length rs) 2) as [H | H].
  { exists noStats. split; [now apply calculateStats_few |].
    repeat split; try discriminate. intros [] q []. }
  assert (Hin : forall r, In r (Array_sort byDate rs) -> In r rs).
  { intros r. apply Permutation_in, Permutation_sym, Array_sort_perm. }
  pose proof (Array_sort_sorted rs) as Hs.
  destruct (calculateStats_two tz rs now H) as (pre & prev & last & Es & E).
  destruct (rates_bracket Monthly tz rs now H) as (st & E' & Hm).
  destruct (rates_bracket Weekly tz rs now H) as (st' & E'' & Hw).
  assert (st' = st) by congruence. subst st'. clear E''.
  exists st. split; [exact E' |].
  rewrite E in E'. injection E' as E'.
  split; [| split].
  - rewrite <- E'. cbn [lastInterval]. intros li [= <-].
    assert (Hd : date prev <= date last)
      by (apply (sorted_snoc2 pre); now rewrite <- Es).
    assert (Hv : (value prev <= value last)%Q).
    { apply Hmono; [| | exact Hd]; apply Hin; rewrite Es; apply in_or_app;
        right; simpl; auto. }
    cbn [lastIntervalFrom li_days li_liters li_litersPerDay].
    split; [apply round1_nonneg, daysBetween_nonneg, Hd |].
    split; [apply round1_nonneg, litersBetween_nonneg, Hv |].
    apply round1_nonneg.
    destruct (Qgtb (daysBetween prev last) 0) eqn:Hg; [| discriminate].
    apply rate_nonneg; [apply litersBetween_nonneg, Hv | exact Hg].
  - rewrite <- E'. cbn [yearStats]. intros ys Hys.
    destruct (ends _) as [[f t] |] eqn:Ee; [| discriminate].
    cbn [option_map fst snd] in Hys. injection Hys as <-.
    apply ends_inv in Ee. destruct Ee as [mid Ee].
    assert (Hd : date f <= date t).
    { apply (sorted_ends f mid t). rewrite <- Ee. now apply filter_sorted. }
    assert (Hf : In f rs /\ In t rs).
    { split; apply Hin;
        apply (proj1 (filter_In
                 (fun r => date r >=? startOfYear tz now) _ _));
        rewrite Ee; [now left | right; apply in_or_app; right; now left]. }
    assert (Hv : (value f <= value t)%Q) by (apply Hmono; tauto).
    cbn [yearStatsFrom ys_totalLiters ys_avgLitersPerDay ys_days].
    split; [apply Math_round_nonneg, litersBetween_nonneg, Hv |].
    split; [| apply Math_round_nonneg, daysBetween_nonneg, Hd].
    destruct (Qgtb (daysBetween f t) 0) eqn:Hg; [| discriminate].
    apply round1_nonneg, rate_nonneg; [apply litersBetween_nonneg, Hv | exact Hg].
  - intros w q Hq.
    assert (Hq' : exists i, bracketRate
                    (beforeOf w tz now (Array_sort byDate rs) i)
                    (throughOf w tz now (Array_sort byDate rs) i) = Some q).
    { destruct w; [rewrite Hm in Hq | rewrite Hw in Hq];
        apply in_map_iff in Hq; destruct Hq as (i & Hi & _); eauto. }
    destruct Hq' as [i Hi].
    destruct (bracket_strict w tz now _ i q Hs Hi)
      as ([jb b] & [jt t] & Hb & Ht & Hlt & ->).
    cbn [snd] in *.
    assert (Hbin : In b rs).
    { apply Hin. rewrite beforeOf_le in Hb. apply latest_spec in Hb.
      destruct Hb as [Hb _]. now apply nth_error_In in Hb. }
    assert (Htin : In t rs).
    { apply Hin. unfold throughOf in Ht. apply latest_spec in Ht.
      destruct Ht as [Ht _]. now apply nth_error_In in Ht. }
    unfold rateBetween. apply round1_nonneg, rate_nonneg.
    + apply litersBetween_nonneg, Hmono; try assumption. lia.
    + apply daysBetween_pos, Hlt.
Qed.

Lemma monotone_meter_no_negative_figure_witness :
  let rs := [reading (isoDate 2024 2 1) 103; reading (isoDate 2024 1 1) 100;
             reading (isoDate 2024 3 1) 103] in
  exists st, calculateStats 0 rs (isoDate 2024 6 1) = Some st /\
    forall w q, In (Some q) (rates w st) -> (0 <= q)%Q.
Proof.
  intros rs.
  destruct (monotone_meter_no_negative_figure 0 rs (isoDate 2024 6 1))
    as (st & E & _ & _ & H).
  - intros a b Ha Hb Hd. unfold rs in Ha, Hb. simpl in Ha, Hb.
    destruct Ha as [<- | [<- | [<- | []]]], Hb as [<- | [<- | [<- | []]]];
      try discriminate; vm_compute in Hd; now elim Hd.
  - exists st. split; assumption.
Defined.

Lemma insert_snoc_latest x l r :
  date x <= date r ->
  insert byDate x (l ++ [r]) = insert byDate x l ++ [r].
Proof.
  intros H. induction l as [| y l IH]; simpl.
  - unfold byDate. destruct (Z.gtb_spec (date x - date r) 0); [lia | reflexivity].
  - destruct (byDate x y >? 0); [now rewrite IH | reflexivity].
Qed.

(** A reading that is not older than any other sorts last. *)
Lemma Array_sort_snoc_latest rs r :
  (forall x, In x rs -> date x <= date r) ->
  Array_sort byDate (rs ++ [r]) = Array_sort byDate rs ++ [r].
Proof.
  induction rs as [| x rs IH]; intros H; [reflexivity |].
  simpl. rewrite IH by (intros y Hy; apply H; now right).
  apply insert_snoc_latest. apply H. now left.
Qed.

Lemma sorted_last_is_max pre x :
  byDateSorted (pre ++ [x]) -> forall y, In y (pre ++ [x]) -> date y <= date x.
Proof.
  unfold byDateSorted. induction pre as [| z pre IH]; simpl; intros H y Hy.
  - destruct Hy as [<- | []]. lia.
  - inversion H as [| ? ? Hs Hf]; subst. destruct Hy as [<- | Hy].
    + rewrite Forall_forall in Hf. apply Hf. apply in_or_app. right. now left.
    + now apply IH.
Qed.

(** X17: a manual entry dated later than every stored reading becomes
    the end of the last interval that the answer reports, and the
    interval starts at a stored reading that no stored reading is later
    than: the new entry is measured against the latest stored
    reading. *)
Theorem manual_entry_ends_last_interval tz c v given srv :
  (0 <= v)%Q ->
  loadData srv <> [] ->
  (forall x, In x (loadData srv) -> date x < date (manualReading c v given)) ->
  exists r stats srv' prev,
    postReadingManual tz c (JNumber v) given true srv
    = (json (NewReading r stats), true, srv') /\
    In prev (loadData srv) /\
    (forall x, In x (loadData srv) -> date x <= date prev) /\
    lastInterval stats = Some (lastIntervalFrom prev r) /\
    li_startDate (lastIntervalFrom prev r) = date prev /\
    li_endDate (lastIntervalFrom prev r) = date r /\
    (li_liters (lastIntervalFrom prev r)
     == round1 ((v - value prev) * 1000))%Q.
Proof.
  intros Hv Hne Hlate.
  destruct (postReadingManual_accepted tz c v given true srv Hv)
    as (stats & E & Ep).
  set (r := manualReading c v given) in *.
  set (rs := loadData srv) in *.
  assert (Es : Array_sort byDate (rs ++ [r]) = Array_sort byDate rs ++ [r]).
  { apply Array_sort_snoc_latest. intros x Hx. specialize (Hlate x Hx). lia. }
  destruct (snoc_cases (Array_sort byDate rs)) as [En | (pre & prev & Epre)].
  { exfalso. apply (f_equal (@length _)) in En.
    rewrite Array_sort_length in En. destruct rs; [now apply Hne | discriminate]. }
  assert (Hprev : In prev rs /\ forall x, In x rs -> date x <= date prev).
  { pose proof (Array_sort_sorted rs) as Hs. rewrite Epre in Hs. split.
    - apply (Permutation_in _ (Permutation_sym (Array_sort_perm byDate rs))).
      rewrite Epre. apply in_or_app. right. now left.
    - intros x Hx. apply (sorted_last_is_max pre prev Hs).
      rewrite <- Epre. apply (Permutation_in _ (Array_sort_perm byDate rs) Hx). }
  destruct Hprev as [Hin Hmax].
  assert (H2 : (2 <= length (rs ++ [r]))%nat).
  { rewrite length_app. simpl. destruct rs; [now elim Hne | simpl; lia]. }
  destruct (calculateStats_two tz (rs ++ [r]) (atStats c) H2)
    as (pre' & prev' & last' & Es' & E').
  rewrite Es, Epre, <- app_assoc in Es'. cbn [app] in Es'.
  assert (Hlast : pre = pre' /\ prev = prev' /\ r = last').
  { change (pre ++ [prev; r]) with (pre ++ [prev] ++ [r]) in Es'.
    change (pre' ++ [prev'; last']) with (pre' ++ [prev'] ++ [last']) in Es'.
    rewrite !app_assoc in Es'. apply app_inj_tail in Es'.
    destruct Es' as [Es' <-]. apply app_inj_tail in Es'. tauto. }
  destruct Hlast as (_ & <- & <-).
  exists r, stats, (saveData srv (rs ++ [r])), prev.
  split; [exact Ep |]. split; [exact Hin |]. split; [exact Hmax |].
  split; [rewrite E in E'; now injection E' as -> |].
  split; [reflexivity |]. split; reflexivity.
Qed.

Lemma manual_entry_ends_last_interval_witness :
  let c := {| atStart := 0; atId := isoDate 2024 6 1; atDate := isoDate 2024 6 1;
              atStats := isoDate 2024 6 1 + 5 |} in
  let srv := {| dataFile := Some [reading (isoDate 2024 5 1) 100;
                                  reading (isoDate 2024 4 1) 97];
                images := [] |} in
  exists r stats srv' li,
    postReadingManual 0 c (JNumber 103) None true srv
    = (json (NewReading r stats), true, srv') /\
    lastInterval stats = Some li /\
    li_startDate li = isoStamp (isoDate 2024 5 1) /\
    li_endDate li = isoStamp (isoDate 2024 6 1) /\
    (li_liters li == 3000)%Q.
Proof.
  intros c srv.
  destruct (manual_entry_ends_last_interval 0 c 103 None srv)
    as (r & stats & srv' & prev & E & _ & _ & Hl & _).
  - discriminate.
  - discriminate.
  - intros x [<- | [<- | []]]; vm_compute; reflexivity.
  - exists r, stats, srv'. vm_compute in E. injection E as <- <- <-.
    eexists. split; [reflexivity |]. split; [reflexivity |].
    repeat split; vm_compute; reflexivity.
Defined.

(** X18: with at least two readings the monthly series has exactly 12
    entries and the weekly series exactly 52, oldest first: entry [k]
    of the monthly series is labelled with the first instant of the
    month 11 - k months before the current one, and entry [k] of the
    weekly series with the instant 52 - k weeks before [now], so that
    the newest week bucket ends at [now]. *)
Theorem series_shape tz rs now :
  (2 <= length rs)%nat ->
  exists st, calculateStats tz rs now = Some st /\
    length (monthlyData st) = 12%nat /\ length (weeklyData st) = 52%nat /\
    (forall k e, nth_error (monthlyData st) k = Some e ->
       m_month e = monthDate tz now (11 - Z.of_nat k)) /\
    (forall k e, nth_error (weeklyData st) k = Some e ->
       w_week e = now - (52 - Z.of_nat k) * (7 * msPerDay)) /\
    weekEnd now 0 = now.
Proof.
  intros H. destruct (calculateStats_two tz rs now H) as (? & ? & ? & _ & E).
  eexists. split; [exact E |]. cbn [monthlyData weeklyData].
  rewrite !length_map.
  assert (Hc : forall n k i, nth_error (countdown n) k = Some i ->
                             i = Z.of_nat n - Z.of_nat k).
  { induction n as [| n IH]; intros k i Hk.
    - destruct k as [| k]; simpl in Hk; [injection Hk as <-; lia |].
      now destruct k.
    - destruct k as [| k].
      + simpl in Hk. injection Hk as <-. lia.
      + change (countdown (S n)) with (Z.of_nat (S n) :: countdown n) in Hk.
        simpl nth_error in Hk. apply IH in Hk. lia. }
  split; [reflexivity |]. split; [reflexivity |]. split; [| split].
  - intros k e Hk. rewrite nth_error_map in Hk.
    destruct (nth_error (countdown 11) k) as [i |] eqn:Ei; [| discriminate].
    injection Hk as <-. cbn [m_month]. apply Hc in Ei. f_equal.
    change (Z.of_nat 11) with 11 in Ei. exact Ei.
  - intros k e Hk. rewrite nth_error_map in Hk.
    destruct (nth_error (countdown 51) k) as [i |] eqn:Ei; [| discriminate].
    injection Hk as <-. cbn [w_week]. apply Hc in Ei.
    change (Z.of_nat 51) with 51 in Ei. unfold weekStart, msPerDay. lia.
  - unfold weekEnd. lia.
Qed.

Lemma series_shape_witness :
  let rs := [reading (isoDate 2024 2 1) 103; reading (isoDate 2024 1 1) 100] in
  exists st, calculateStats 0 rs (isoDate 2024 6 1) = Some st /\
    length (monthlyData st) = 12%nat /\ length (weeklyData st) = 52%nat.
Proof.
  intros rs.
  destruct (series_shape 0 rs (isoDate 2024 6 1)) as (st & E & Hm & Hw & _).
  - simpl. lia.
  - exists st. repeat split; assumption.
Defined.

(** X19: whatever the session was, logging in with the configured
    password opens it: the data is then served with its statistics;
    after logging out the same request is refused again.  None of the
    four requests changes the server. *)
Theorem login_opens_and_logout_closes APP_PASSWORD tz c1 c2 c3 c4 session srv :
  exists stats,
    calculateStats tz (loadData srv) (atStats c2) = Some stats /\
    serve APP_PASSWORD tz
      [(c1, PostLogin (JString APP_PASSWORD)); (c2, GetData);
       (c3, PostLogout); (c4, GetData)] session srv
    = ([json Success; json (Data (loadData srv) stats); json Success;
        errorJson 401 "Unauthorized"], false, srv).
Proof.
  destruct (calculateStats_total tz (loadData srv) (atStats c2)) as [stats E].
  exists stats. split; [exact E |].
  cbn [serve handle login requireAuth logout]. rewrite String.eqb_refl.
  unfold getData. now rewrite E.
Qed.
